(** * Pratiti: a shallow embedding of [streamlit_app.py]

    The script pastes an article into five prompt templates, sends the
    prompts to a remote completion endpoint, derives a few values from the
    answers (tags, headline line, highlighted text) and appends one record
    to a JSON file.

    Conventions of the embedding.
    - A Python [str] is a [list ascii]; [lit] turns a literal into one.
      Each [ascii] stands for one character with code point below 256, and
      the character classes used by [str.strip], by [\b] and by
      [re.IGNORECASE] are Python's on that range.  The three characters of
      the narrative template that lie outside it are kept as the bytes of
      the source file.
    - Library calls ([str.split], [str.strip], [re.sub], [json.dump],
      [json.load]) are modelled by functions written here after the
      behaviour of CPython (3.12 for the replacement templates of [re.sub],
      where earlier versions still take a few more spellings of a group
      number).  The JSON reader is modelled on strings, lists and
      dictionaries, the values the script writes.
    - The remote endpoint, the clock and the two widgets read by the script
      are inputs; the store file, the calls made and the widgets drawn are
      the state threaded through a run.  The page configuration and the
      spinner leave no trace in it.
    - In the script the endpoint gives the content of the first choice, or
      fails; [Response] follows lines 46-48 themselves on a reply, from the
      status code to the stripped content. *)

From Stdlib Require Import Ascii String List Bool Arith Lia.
Import ListNotations.

Set Implicit Arguments.

(** ** Python strings *)

Module Py.

Definition str := list ascii.

Definition lit (s : string) : str := list_ascii_of_string s.

Definition code (c : ascii) : nat := nat_of_ascii c.

Definition between (lo hi n : nat) : bool := (lo <=? n) && (n <=? hi).

(** [str.isspace] on one character. *)
Definition is_space (c : ascii) : bool :=
  let n := code c in
  between 9 13 n || between 28 32 n || (n =? 133) || (n =? 160).

(** The class [\w] of [re] on a [str] pattern: alphanumeric or underscore. *)
Definition is_word (c : ascii) : bool :=
  let n := code c in
  between 48 57 n || between 65 90 n || (n =? 95) || between 97 122 n
  || (n =? 170) || between 178 179 n || (n =? 181) || between 185 186 n
  || between 188 190 n || between 192 214 n || between 216 246 n
  || between 248 255 n.

(** [str.lower] on one character; [re.IGNORECASE] compares characters
    through it. *)
Definition lower (c : ascii) : ascii :=
  let n := code c in
  if between 65 90 n || between 192 214 n || between 216 222 n
  then ascii_of_nat (n + 32) else c.

Definition nl : ascii := "010"%char.
Definition dquote : ascii := "034"%char.
Definition backslash : ascii := "092"%char.

(** Truth value of a string: [if s:]. *)
Definition truthy (s : str) : bool :=
  match s with [] => false | _ :: _ => true end.

Fixpoint str_eqb (a b : str) : bool :=
  match a, b with
  | [], [] => true
  | x :: a', y :: b' => Ascii.eqb x y && str_eqb a' b'
  | _, _ => false
  end.

(** [s.split(sep)] for a one-character separator: the first piece, then the
    others. *)
Fixpoint split_pieces (sep : ascii) (s : str) : str * list str :=
  match s with
  | [] => ([], [])
  | c :: s' =>
      let (piece, others) := split_pieces sep s' in
      if Ascii.eqb c sep then ([], piece :: others) else (c :: piece, others)
  end.

Definition split (sep : ascii) (s : str) : list str :=
  let (piece, others) := split_pieces sep s in piece :: others.

(** [sep.join(pieces)]. *)
Fixpoint join (sep : str) (pieces : list str) : str :=
  match pieces with
  | [] => []
  | [p] => p
  | p :: rest => p ++ sep ++ join sep rest
  end.

Fixpoint lstrip (s : str) : str :=
  match s with
  | [] => []
  | c :: s' => if is_space c then lstrip s' else s
  end.

Definition rstrip (s : str) : str := rev (lstrip (rev s)).

(** [s.strip()]. *)
Definition strip (s : str) : str := rstrip (lstrip s).

Fixpoint startswith (w s : str) : bool :=
  match w, s with
  | [], _ => true
  | x :: w', c :: s' => Ascii.eqb x c && startswith w' s'
  | _ :: _, [] => false
  end.

(** [w in s]. *)
Fixpoint contains (w s : str) : bool :=
  startswith w s || match s with [] => false | _ :: s' => contains w s' end.

(** [s.count(w)] for a non-empty [w]: occurrences are taken from the left
    and do not overlap; [skip] characters of the last one are still to be
    passed. *)
Fixpoint count_from (w : str) (skip : nat) (s : str) : nat :=
  match s with
  | [] => 0
  | _ :: s' =>
      match skip with
      | S k => count_from w k s'
      | 0 => if startswith w s
             then S (count_from w (pred (length w)) s')
             else count_from w 0 s'
      end
  end.

Definition count (w s : str) : nat :=
  match w with
  | [] => S (length s)
  | _ :: _ => count_from w 0 s
  end.

End Py.

Export Py.

(** ** The prompt templates (lines 54-114) *)

Module Prompt.

(** The text of a template up to a placeholder: each line with its newline. *)
Definition text (lines : list str) : str :=
  concat (map (fun l => l ++ [nl]) lines).

Definition generate_prompt (article_text research_context : str) : str :=
  [nl]
  ++ text
       [ lit "You are Pratiti â€“ an advanced financial research analyst. Your job is to read the news article below and produce a single blended narrative insight.";
         lit "";
         lit "Your insight must include:";
         lit "- A one-line summary of " ++ [dquote] ++ lit "Why This Matters" ++ [dquote];
         lit "- Contextual summary of the article";
         lit "- Historical or global comparisons if relevant";
         lit "- Sector or market impact";
         lit "- Forward-looking commentary with reasoning";
         lit "";
         lit "Article:" ]
  ++ article_text ++ [nl]
  ++ text [ lit ""; lit "Relevant research context:" ]
  ++ research_context ++ [nl].

Definition generate_research_prompt (article_text : str) : str :=
  [nl]
  ++ text
       [ lit "You are a senior research analyst. Based on the article below, list the most relevant and credible publicly available research papers, policy briefs, or news articles from the internet that provide supporting context or critical background.";
         lit "";
         lit "Each recommendation must include:";
         lit "- Title or brief summary";
         lit "- Source";
         lit "- Link";
         lit "";
         lit "Do not invent links. Only suggest links that are available publicly and are highly relevant.";
         lit "";
         lit "Article:" ]
  ++ article_text ++ [nl].

Definition generate_tag_prompt (article_text : str) : str :=
  [nl]
  ++ text
       [ lit "You are a financial analyst assistant. Categorize the article below into relevant business topics or sectors such as Finance, Energy, Technology, Policy, ESG, etc. ";
         lit "Respond with a comma-separated list of 3 to 6 tags.";
         lit "";
         lit "Article:" ]
  ++ article_text ++ [nl].

Definition generate_sentiment_prompt (article_text : str) : str :=
  [nl]
  ++ text
       [ lit "Analyze the overall sentiment of the following article. Classify it as Positive, Negative, or Neutral. Provide only the label.";
         lit "";
         lit "Article:" ]
  ++ article_text ++ [nl].

Definition generate_explanation_prompt (insight : str) : str :=
  [nl]
  ++ text
       [ lit "Explain how the following insight was derived, focusing only on:";
         lit "- Sector and market impact";
         lit "- Forward-looking commentary with reasoning";
         lit "";
         lit "For each, identify what parts of the article contributed to the conclusions, and any assumptions or signals used.";
         lit "";
         lit "Insight:" ]
  ++ insight ++ [nl].

End Prompt.

(** ** Outcomes of fallible calls *)

Inductive exn : Type :=
| RemoteCallError    (* [requests] failure, bad status or malformed answer *)
| TemplateError      (* [re.error] or [IndexError] from a replacement template *)
| JSONDecodeError    (* [json.load] on a file that is not a document *)
| AttributeError.    (* [append] on a loaded value that is not a list *)

Inductive result (A : Type) : Type :=
| Ok (a : A)
| Raise (e : exn).

Arguments Ok {A} a.
Arguments Raise {A} e.

(** ** The fragment of [re] used by [highlight_keywords] (lines 116-119) *)

Module Re.

(** A compiled pattern: [\b] and literal characters. *)
Inductive item : Type :=
| Boundary
| Literal (c : ascii).

(** The pattern compiled from [f"\\b{re.escape(word)}\\b"]: [re.escape]
    makes every character of [word] stand for itself. *)
Definition word_pattern (word : str) : list item :=
  Boundary :: map Literal word ++ [Boundary].

Definition word_side (c : option ascii) : bool :=
  match c with Some x => is_word x | None => false end.

(** [\b] between the character before the position and the rest of the
    text. *)
Definition at_boundary (prev : option ascii) (s : str) : bool :=
  xorb (word_side prev) (word_side (hd_error s)).

(** Match of a pattern at one position under [re.IGNORECASE]; the result
    is the number of characters matched. *)
Fixpoint match_here (p : list item) (prev : option ascii) (s : str)
  : option nat :=
  match p with
  | [] => Some 0
  | Boundary :: p' =>
      if at_boundary prev s then match_here p' prev s else None
  | Literal x :: p' =>
      match s with
      | c :: s' =>
          if Ascii.eqb (lower c) (lower x)
          then option_map S (match_here p' (Some c) s')
          else None
      | [] => None
      end
  end.

(** A parsed replacement template: literal characters and references to
    the whole match, the only group these patterns have. *)
Inductive piece : Type :=
| Chars (c : ascii)
| Group0.

Definition is_digit (c : ascii) : bool := between 48 57 (code c).
Definition is_octal (c : ascii) : bool := between 48 55 (code c).
Definition is_ascii_letter (c : ascii) : bool :=
  between 65 90 (code c) || between 97 122 (code c).
Definition digit_val (c : ascii) : nat := code c - 48.

(** The escapes of a replacement template. *)
Definition escape_char (e : ascii) : option ascii :=
  let n := code e in
  if n =? 97 then Some (ascii_of_nat 7)          (* \a *)
  else if n =? 98 then Some (ascii_of_nat 8)     (* \b *)
  else if n =? 102 then Some (ascii_of_nat 12)   (* \f *)
  else if n =? 110 then Some (ascii_of_nat 10)   (* \n *)
  else if n =? 114 then Some (ascii_of_nat 13)   (* \r *)
  else if n =? 116 then Some (ascii_of_nat 9)    (* \t *)
  else if n =? 118 then Some (ascii_of_nat 11)   (* \v *)
  else if n =? 92 then Some backslash
  else None.

Inductive mode : Type :=
| Plain
| Name (empty zeros : bool).   (* inside [\g<...>] *)

Definition cons_piece (x : piece) (r : option (list piece))
  : option (list piece) :=
  option_map (cons x) r.

(** [parse_template] for a pattern without groups; [None] when the
    template is refused. *)
Fixpoint template (m : mode) (s : str) : option (list piece) :=
  match m, s with
  | Plain, [] => Some []
  | Plain, c :: s1 =>
      if negb (Ascii.eqb c backslash) then cons_piece (Chars c) (template Plain s1)
      else
        match s1 with
        | [] => None                                   (* bad escape *)
        | e :: s2 =>
            if Ascii.eqb e "g" then
              match s2 with
              | lt :: s3 =>
                  if Ascii.eqb lt "<" then template (Name true true) s3
                  else None                            (* missing < *)
              | [] => None
              end
            else if Ascii.eqb e "0" then
              match s2 with
              | d1 :: s3 =>
                  if is_octal d1 then
                    match s3 with
                    | d2 :: s4 =>
                        if is_octal d2
                        then cons_piece
                               (Chars (ascii_of_nat (8 * digit_val d1 + digit_val d2)))
                               (template Plain s4)
                        else cons_piece (Chars (ascii_of_nat (digit_val d1)))
                                        (template Plain s3)
                    | [] => cons_piece (Chars (ascii_of_nat (digit_val d1)))
                                       (template Plain s3)
                    end
                  else cons_piece (Chars zero) (template Plain s2)
              | [] => cons_piece (Chars zero) (template Plain s2)
              end
            else if is_digit e then
              match s2 with
              | d1 :: d2 :: s4 =>
                  if is_octal e && is_octal d1 && is_octal d2 then
                    let n := 64 * digit_val e + 8 * digit_val d1 + digit_val d2 in
                    if n <=? 255
                    then cons_piece (Chars (ascii_of_nat n)) (template Plain s4)
                    else None                          (* octal out of range *)
                  else None                            (* invalid group reference *)
              | _ => None                              (* invalid group reference *)
              end
            else
              match escape_char e with
              | Some x => cons_piece (Chars x) (template Plain s2)
              | None =>
                  if is_ascii_letter e then None       (* bad escape *)
                  else cons_piece (Chars backslash)
                         (cons_piece (Chars e) (template Plain s2))
              end
        end
  | Name _ _, [] => None                               (* missing > *)
  | Name empty zeros, c :: s1 =>
      if Ascii.eqb c ">" then
        if negb empty && zeros then cons_piece Group0 (template Plain s1)
        else None                                      (* no such group *)
      else template (Name false (zeros && Ascii.eqb c "0")) s1
  end.

Definition parse_template (s : str) : option (list piece) := template Plain s.

Definition expand (repl : list piece) (matched : str) : str :=
  flat_map (fun x => match x with Chars c => [c] | Group0 => matched end) repl.

(** The scan of [pattern.sub]: [prev] is the character before the
    position, [skip] counts the characters of the last match still to be
    passed. *)
Fixpoint sub_loop (p : list item) (repl : list piece)
    (prev : option ascii) (skip : nat) (s : str) : str :=
  match s with
  | [] =>
      match skip, match_here p prev [] with
      | 0, Some _ => expand repl []
      | _, _ => []
      end
  | c :: s' =>
      match skip with
      | S k => sub_loop p repl (Some c) k s'
      | 0 =>
          match match_here p prev s with
          | Some 0 => expand repl [] ++ c :: sub_loop p repl (Some c) 0 s'
          | Some (S n) =>
              expand repl (firstn (S n) s) ++ sub_loop p repl (Some c) n s'
          | None => c :: sub_loop p repl (Some c) 0 s'
          end
      end
  end.

(** [re.sub(pattern, template, s, flags=re.IGNORECASE)]: the template is
    parsed before the scan starts. *)
Definition sub (p : list item) (tpl : str) (s : str) : result str :=
  match parse_template tpl with
  | Some repl => Ok (sub_loop p repl None 0 s)
  | None => Raise TemplateError
  end.

End Re.

Definition wrapped (word : str) : str := lit "**" ++ word ++ lit "**".

Fixpoint highlight_keywords (text : str) (keywords : list str) : result str :=
  match keywords with
  | [] => Ok text
  | word :: rest =>
      match Re.sub (Re.word_pattern word) (wrapped word) text with
      | Ok text' => highlight_keywords text' rest
      | Raise e => Raise e
      end
  end.

(** ** The fragment of [json] used by the store *)

Module Json.

(** The Python values the store holds: strings, lists, and dictionaries
    with string keys in insertion order. *)
#[warnings="-register-all"]
Inductive json : Type :=
| JStr (s : str)
| JArr (items : list json)
| JObj (members : list (str * json)).

(** *** [json.dump(obj, f, indent=2)] *)

Definition hex_digit (n : nat) : ascii :=
  if n <? 10 then ascii_of_nat (48 + n) else ascii_of_nat (87 + n).

(** One character under [ensure_ascii]. *)
Definition encode_char (c : ascii) : str :=
  let n := code c in
  if n =? 34 then [backslash; dquote]
  else if n =? 92 then [backslash; backslash]
  else if n =? 8 then [backslash; "b"%char]
  else if n =? 12 then [backslash; "f"%char]
  else if n =? 10 then [backslash; "n"%char]
  else if n =? 13 then [backslash; "r"%char]
  else if n =? 9 then [backslash; "t"%char]
  else if between 32 126 n then [c]
  else [backslash; "u"%char; "0"%char; "0"%char;
        hex_digit (n / 16); hex_digit (n mod 16)].

Definition encode_basestring_ascii (s : str) : str :=
  dquote :: flat_map encode_char s ++ [dquote].

Definition newline_indent (level : nat) : str :=
  nl :: repeat " "%char (2 * level).

Definition item_separator (level : nat) : str :=
  ","%char :: newline_indent level.

Fixpoint encode (level : nat) (v : json) : str :=
  match v with
  | JStr s => encode_basestring_ascii s
  | JArr [] => lit "[]"
  | JArr items =>
      "["%char :: newline_indent (S level)
      ++ join (item_separator (S level)) (map (encode (S level)) items)
      ++ newline_indent level ++ ["]"%char]
  | JObj [] => lit "{}"
  | JObj members =>
      "{"%char :: newline_indent (S level)
      ++ join (item_separator (S level))
           (map (fun kv : str * json =>
                   let (k, x) := kv in
                   encode_basestring_ascii k ++ lit ": " ++ encode (S level) x)
                members)
      ++ newline_indent level ++ ["}"%char]
  end.

Definition dumps (v : json) : str := encode 0 v.

(** *** [json.load(f)] *)

Definition is_ws (c : ascii) : bool :=
  let n := code c in (n =? 32) || (n =? 9) || (n =? 10) || (n =? 13).

Fixpoint skip_ws (s : str) : str :=
  match s with
  | [] => []
  | c :: s' => if is_ws c then skip_ws s' else s
  end.

Definition hex_val (c : ascii) : option nat :=
  let n := code c in
  if between 48 57 n then Some (n - 48)
  else if between 97 102 n then Some (n - 87)
  else if between 65 70 n then Some (n - 55)
  else None.

Definition hex4 (a b c d : ascii) : option nat :=
  match hex_val a, hex_val b, hex_val c, hex_val d with
  | Some x, Some y, Some z, Some w => Some (4096 * x + 256 * y + 16 * z + w)
  | _, _, _, _ => None
  end.

(** The one-character escapes of a JSON string. *)
Definition unescape (e : ascii) : option ascii :=
  let n := code e in
  if n =? 34 then Some dquote
  else if n =? 92 then Some backslash
  else if n =? 47 then Some "/"%char
  else if n =? 98 then Some (ascii_of_nat 8)
  else if n =? 102 then Some (ascii_of_nat 12)
  else if n =? 110 then Some (ascii_of_nat 10)
  else if n =? 114 then Some (ascii_of_nat 13)
  else if n =? 116 then Some (ascii_of_nat 9)
  else None.

Definition push (c : ascii) (r : option (str * str)) : option (str * str) :=
  match r with
  | Some (x, rest) => Some (c :: x, rest)
  | None => None
  end.

(** The string scanner, started after the opening quote: the string read
    and the text after the closing quote.  [None] stands for a decode
    error, and for an escape above [ÿ], which the embedding has no
    character for. *)
Fixpoint scanstring (s : str) : option (str * str) :=
  match s with
  | [] => None
  | c :: s1 =>
      if Ascii.eqb c dquote then Some ([], s1)
      else if Ascii.eqb c backslash then
        match s1 with
        | [] => None
        | e :: s2 =>
            if Ascii.eqb e "u" then
              match s2 with
              | h1 :: h2 :: h3 :: h4 :: s3 =>
                  match hex4 h1 h2 h3 h4 with
                  | Some n =>
                      if n <? 256 then push (ascii_of_nat n) (scanstring s3)
                      else None
                  | None => None
                  end
              | _ => None
              end
            else
              match unescape e with
              | Some x => push x (scanstring s2)
              | None => None
              end
        end
      else if code c <? 32 then None
      else push c (scanstring s1)
  end.

(** Assignment to a dictionary key. *)
Fixpoint dict_set (k : str) (x : json) (d : list (str * json))
  : list (str * json) :=
  match d with
  | [] => [(k, x)]
  | (k', x') :: d' =>
      if str_eqb k k' then (k', x) :: d' else (k', x') :: dict_set k x d'
  end.

(** [dict(pairs)]. *)
Definition dict (pairs : list (str * json)) : list (str * json) :=
  fold_left (fun d kv => dict_set (fst kv) (snd kv) d) pairs [].

(** The scanner on the values of the fragment; anything else (numbers,
    [true], [false], [null]) is outside it and yields [None], as a decode
    error does.  [fuel] bounds the nesting of calls. *)
Fixpoint scan_once (fuel : nat) (s : str) : option (json * str) :=
  match fuel with
  | 0 => None
  | S fuel' =>
      match s with
      | [] => None
      | c :: s1 =>
          if Ascii.eqb c dquote then
            match scanstring s1 with
            | Some (x, rest) => Some (JStr x, rest)
            | None => None
            end
          else if Ascii.eqb c "[" then
            match skip_ws s1 with
            | [] => None
            | c2 :: s2 =>
                if Ascii.eqb c2 "]" then Some (JArr [], s2)
                else
                  match array_items fuel' (c2 :: s2) with
                  | Some (items, rest) => Some (JArr items, rest)
                  | None => None
                  end
            end
          else if Ascii.eqb c "{" then
            match skip_ws s1 with
            | [] => None
            | c2 :: s2 =>
                if Ascii.eqb c2 "}" then Some (JObj [], s2)
                else if Ascii.eqb c2 dquote then
                  match object_pairs fuel' s2 with
                  | Some (pairs, rest) => Some (JObj (dict pairs), rest)
                  | None => None
                  end
                else None
            end
          else None
      end
  end

(** The items of an array, from the first character of an item. *)
with array_items (fuel : nat) (s : str) : option (list json * str) :=
  match fuel with
  | 0 => None
  | S fuel' =>
      match scan_once fuel' s with
      | None => None
      | Some (x, rest) =>
          match skip_ws rest with
          | [] => None
          | c :: r1 =>
              if Ascii.eqb c "]" then Some ([x], r1)
              else if Ascii.eqb c "," then
                match array_items fuel' (skip_ws r1) with
                | Some (xs, r2) => Some (x :: xs, r2)
                | None => None
                end
              else None
          end
      end
  end

(** The members of an object, from after the opening quote of a key. *)
with object_pairs (fuel : nat) (s : str) : option (list (str * json) * str) :=
  match fuel with
  | 0 => None
  | S fuel' =>
      match scanstring s with
      | None => None
      | Some (k, rest) =>
          match skip_ws rest with
          | [] => None
          | c :: r1 =>
              if negb (Ascii.eqb c ":") then None
              else
                match scan_once fuel' (skip_ws r1) with
                | None => None
                | Some (x, r2) =>
                    match skip_ws r2 with
                    | [] => None
                    | c2 :: r3 =>
                        if Ascii.eqb c2 "}" then Some ([(k, x)], r3)
                        else if Ascii.eqb c2 "," then
                          match skip_ws r3 with
                          | [] => None
                          | c3 :: r4 =>
                              if Ascii.eqb c3 dquote then
                                match object_pairs fuel' r4 with
                                | Some (ps, r5) => Some ((k, x) :: ps, r5)
                                | None => None
                                end
                              else None
                          end
                        else None
                    end
                end
          end
      end
  end.

(** [json.loads]: one value, with white space around it and nothing
    else. *)
Definition loads (s : str) : option json :=
  match scan_once (S (length s)) (skip_ws s) with
  | Some (v, rest) =>
      match skip_ws rest with
      | [] => Some v
      | _ :: _ => None
      end
  | None => None
  end.

End Json.

Export Json.

(** ** The store (lines 17-31) *)

Module Store.

Definition INSIGHT_DB_PATH : str := lit "insights.json".

(** What the file system holds at [INSIGHT_DB_PATH]: nothing, or the text
    of the file. *)
Definition file : Type := option str.

Definition load_insights (f : file) : result json :=
  match f with
  | Some content =>
      match loads content with
      | Some v => Ok v
      | None => Raise JSONDecodeError
      end
  | None => Ok (JArr [])
  end.

(** The file after [save_insight(entry)]. *)
Definition save_insight (entry : json) (f : file) : result file :=
  match load_insights f with
  | Ok (JArr insights) => Ok (Some (dumps (JArr (insights ++ [entry]))))
  | Ok _ => Raise AttributeError
  | Raise e => Raise e
  end.

End Store.

(** ** The answer of the endpoint (lines 46-48) *)

Module Response.

(** What [response.json()] returns: [None], a truth value, a number (kept
    as the text the body has for it), a string, a list, or a dictionary
    with string keys in insertion order. *)
#[warnings="-register-all"]
Inductive value : Type :=
| Null
| Boolean (b : bool)
| Number (literal : str)
| Text (s : str)
| Array (items : list value)
| Object (members : list (str * value)).

(** What [requests.post] comes back with: an exception, or a response with
    its status code and its body, [None] when the body is not JSON. *)
Inductive reply : Type :=
| Unreachable
| Answer (status_code : nat) (body : option value).

(** The exceptions of lines 46-48. *)
Inductive error : Type :=
| RequestException   (* [requests.post] *)
| HTTPError          (* [raise_for_status] *)
| BodyError          (* [response.json()], the body is not JSON *)
| KeyError
| IndexError
| TypeError
| AttributeError.

Inductive outcome (A : Type) : Type :=
| Got (a : A)
| Fail (e : error).

Arguments Got {A} a.
Arguments Fail {A} e.

Definition and_then {A B} (m : outcome A) (k : A -> outcome B) : outcome B :=
  match m with
  | Got a => k a
  | Fail e => Fail e
  end.

Fixpoint lookup (k : str) (members : list (str * value)) : option value :=
  match members with
  | [] => None
  | (k', x) :: members' => if str_eqb k k' then Some x else lookup k members'
  end.

(** [v[k]] for a string [k]. *)
Definition subscript (k : str) (v : value) : outcome value :=
  match v with
  | Object members =>
      match lookup k members with
      | Some x => Got x
      | None => Fail KeyError
      end
  | _ => Fail TypeError
  end.

(** [v[0]]. *)
Definition subscript_0 (v : value) : outcome value :=
  match v with
  | Array (x :: _) => Got x
  | Array [] => Fail IndexError
  | Text (c :: _) => Got (Text [c])
  | Text [] => Fail IndexError
  | Object _ => Fail KeyError
  | _ => Fail TypeError
  end.

(** [v.strip()]. *)
Definition strip_method (v : value) : outcome str :=
  match v with
  | Text s => Got (strip s)
  | _ => Fail AttributeError
  end.

(** [response.raise_for_status()]. *)
Definition raise_for_status (status_code : nat) : outcome unit :=
  if between 400 599 status_code then Fail HTTPError else Got tt.

(** [response.json()]. *)
Definition json_body (body : option value) : outcome value :=
  match body with
  | Some v => Got v
  | None => Fail BodyError
  end.

(** [v["choices"][0]["message"]["content"]]. *)
Definition first_content (v : value) : outcome value :=
  and_then (subscript (lit "choices") v) (fun choices =>
  and_then (subscript_0 choices) (fun first =>
  and_then (subscript (lit "message") first) (fun message =>
  subscript (lit "content") message))).

(** What lines 46-48 make of a reply. *)
Definition returned (r : reply) : outcome str :=
  match r with
  | Unreachable => Fail RequestException
  | Answer status_code body =>
      and_then (raise_for_status status_code) (fun _ =>
      and_then (json_body body) (fun v =>
      and_then (first_content v) strip_method))
  end.

End Response.

(** ** The script (lines 33-48 and 121-185) *)

Module App.

(** One request to the completion endpoint. *)
Record call : Type := { role : str; prompt : str }.

(** What a run draws on the page. *)
Inductive widget : Type :=
| Title (s : str)
| Markdown (s : str)
| Subheader (s : str)
| Text (s : str)                                   (* [st.write] *)
| Caption (s : str)
| DownloadButton (label data file_name : str)
| ErrorBox (e : exn)                               (* [st.error] *)
| CodeBox (e : exn)                                (* [st.code] of the trace *)
| InSidebar (w : widget).

Inductive event : Type :=
| Called (c : call)             (* [query_openrouter] was entered *)
| Drew (w : widget)
| SaveInsight (entry : json).   (* [save_insight] was entered *)

Record world : Type := { store : Store.file; log : list event }.

Fixpoint calls_of (l : list event) : list call :=
  match l with
  | [] => []
  | Called c :: l' => c :: calls_of l'
  | _ :: l' => calls_of l'
  end.

Fixpoint saves_of (l : list event) : list json :=
  match l with
  | [] => []
  | SaveInsight e :: l' => e :: saves_of l'
  | _ :: l' => saves_of l'
  end.

(** Statements of the script: they read and change the world and return a
    value or raise. *)
Definition M (A : Type) : Type := world -> result A * world.

Definition ret {A} (a : A) : M A := fun w => (Ok a, w).

Definition bind {A B} (m : M A) (k : A -> M B) : M B :=
  fun w =>
    match m w with
    | (Ok a, w') => k a w'
    | (Raise e, w') => (Raise e, w')
    end.

(** [try: m except: handler]. *)
Definition try_except {A} (m : M A) (handler : exn -> M A) : M A :=
  fun w =>
    match m w with
    | (Ok a, w') => (Ok a, w')
    | (Raise e, w') => handler e w'
    end.

Definition lift {A} (r : result A) : M A := fun w => (r, w).

(** The world with one more event in its log. *)
Definition add (e : event) (w : world) : world :=
  {| store := store w; log := log w ++ [e] |}.

Definition record (e : event) : M unit := fun w => (Ok tt, add e w).

Definition draw (x : widget) : M unit := record (Drew x).

Declare Scope script_scope.
Delimit Scope script_scope with script.
Notation "x <- m ;; k" := (bind m (fun x => k))
  (at level 61, m at next level, right associativity) : script_scope.
Notation "m ;; k" := (bind m (fun _ => k))
  (at level 61, right associativity) : script_scope.
Local Open Scope script_scope.

Definition tags_of (tags_response : str) : list str :=
  map strip (split ","%char tags_response).

Definition insight_lines_of (insight : str) : list str := split nl insight.

(** [insight_lines[0] if insight_lines else "N/A"]. *)
Definition why_matters_of (insight_lines : list str) : str :=
  match insight_lines with
  | l :: _ => l
  | [] => lit "N/A"
  end.

Definition full_insight_of (insight_lines : list str) : str :=
  join [nl] insight_lines.

Definition fixed_keywords : list str :=
  [ lit "growth"; lit "inflation"; lit "fiscal deficit"; lit "trade";
    lit "market"; lit "RBI"; lit "Fed" ].

(** The dictionary handed to [save_insight]. *)
Definition entry (timestamp article insight research why_matters : str)
    (tags : list str) (sentiment : str) : json :=
  JObj [ (lit "timestamp", JStr timestamp);
         (lit "article", JStr article);
         (lit "insight", JStr insight);
         (lit "research", JStr research);
         (lit "why_matters", JStr why_matters);
         (lit "tags", JArr (map JStr tags));
         (lit "sentiment", JStr sentiment) ].

Definition sentiment_role : str := lit "You are a sentiment classifier.".
Definition research_role : str :=
  lit "You are a research analyst helping senior executives.".
Definition tag_role : str := lit "You are a tagging assistant.".
Definition insight_role : str := lit "You are a financial research assistant.".
Definition explanation_role : str :=
  lit "You explain AI-generated insights clearly.".

Definition sentiment_error : str := lit "Error detecting sentiment.".

Definition page_intro : str :=
  lit "Paste a business news article to generate contextual insights and supporting research links.".
Definition sidebar_caption : str :=
  lit "Sentiment is classified by an LLM based on tone, language, and economic signals in the article.".

Section Run.

(** The endpoint: the content of the first choice it answers to a call,
    given the calls made before, or [None] when the request fails in any
    way. *)
Variable endpoint : list call -> call -> option str.

(** [datetime.now().isoformat()]. *)
Variable now : str.

Definition query_openrouter (prompt role_description : str) : M str :=
  fun w =>
    let c := {| role := role_description; prompt := prompt |} in
    match endpoint (calls_of (log w)) c with
    | Some content => (Ok (strip content), add (Called c) w)
    | None => (Raise RemoteCallError, add (Called c) w)
    end.

(** The statement [save_insight(entry)] in a run. *)
Definition save_insight_stmt (e : json) : M unit :=
  fun w =>
    match Store.save_insight e (store w) with
    | Ok f => (Ok tt, {| store := f; log := log w ++ [SaveInsight e] |})
    | Raise x => (Raise x, add (SaveInsight e) w)
    end.

(** Lines 122-128. *)
Definition sentiment_block (article_text : str) : M str :=
  if truthy article_text then
    try_except
      (query_openrouter (Prompt.generate_sentiment_prompt article_text)
                        sentiment_role)
      (fun _ => ret sentiment_error)
  else ret [].

(** Lines 130-134. *)
Definition sidebar (sentiment : str) : M unit :=
  if truthy sentiment then
    draw (InSidebar (Subheader (lit "Sentiment Analysis"))) ;;
    draw (InSidebar (Markdown (lit "**Sentiment:** " ++ sentiment))) ;;
    draw (InSidebar (Caption sidebar_caption))
  else ret tt.

(** Lines 139-185, entered when the article is not empty and the button
    was pressed; [sentiment] is the variable set by the lines above. *)
Definition generate_insight (article_text sentiment : str) : M unit :=
  try_except
    (research_output <-
       query_openrouter (Prompt.generate_research_prompt article_text)
                        research_role ;;
     tags_response <-
       query_openrouter (Prompt.generate_tag_prompt article_text) tag_role ;;
     let tags := tags_of tags_response in
     insight <-
       query_openrouter (Prompt.generate_prompt article_text research_output)
                        insight_role ;;
     let insight_lines := insight_lines_of insight in
     let why_matters := why_matters_of insight_lines in
     let full_insight := full_insight_of insight_lines in
     explanation <-
       query_openrouter (Prompt.generate_explanation_prompt full_insight)
                        explanation_role ;;
     draw (Subheader (lit "Why This Matters")) ;;
     draw (Text why_matters) ;;
     draw (Subheader (lit "Full Insight")) ;;
     highlighted <- lift (highlight_keywords full_insight (tags ++ fixed_keywords)) ;;
     draw (Markdown highlighted) ;;
     draw (Subheader (lit "How This Insight Was Derived")) ;;
     draw (Text explanation) ;;
     draw (Subheader (lit "Related Research & References")) ;;
     draw (Markdown research_output) ;;
     draw (DownloadButton (lit "Download Insight") full_insight
                          (lit "pratiti_insight.txt")) ;;
     save_insight_stmt (entry now article_text full_insight research_output
                              why_matters tags sentiment))
    (fun e => draw (ErrorBox e) ;; draw (CodeBox e)).

(** One run of the script, for the text in the text area and the state of
    the button. *)
Definition script (article_text : str) (button : bool) : M unit :=
  draw (Title (lit "Pratiti")) ;;
  draw (Markdown page_intro) ;;
  sentiment <- sentiment_block article_text ;;
  sidebar sentiment ;;
  if truthy article_text && button
  then generate_insight article_text sentiment
  else ret tt.

(** The runs of a session: the script is run again from the top on every
    interaction, with the text then in the text area and with the button
    true only in the run its press starts. *)
Fixpoint session (interactions : list (str * bool)) (w : world) : world :=
  match interactions with
  | [] => w
  | (article_text, button) :: later =>
      session later (snd (script article_text button w))
  end.

End Run.

End App.

(** ** Notions used to state the properties *)

Module Notions.

Import App Prompt Re.

Definition sentiment_call (article_text : str) : call :=
  {| role := sentiment_role; prompt := generate_sentiment_prompt article_text |}.

Definition research_call (article_text : str) : call :=
  {| role := research_role; prompt := generate_research_prompt article_text |}.

(** The value the sentiment block leaves in [sentiment] for a non-empty
    article: the stripped answer, or the placeholder. *)
Definition eager_sentiment (endpoint : list call -> call -> option str)
    (article_text : str) (w : world) : str :=
  match endpoint (calls_of (log w)) (sentiment_call article_text) with
  | Some content => strip content
  | None => sentiment_error
  end.

(** The world of a run with a non-empty article when it reaches the
    button: the two page widgets, the sentiment call and the sidebar are in
    the log. *)
Definition preamble (endpoint : list call -> call -> option str)
    (article_text : str) (w : world) : world :=
  snd (sidebar (eager_sentiment endpoint article_text w)
         (add (Called (sentiment_call article_text))
            (add (Drew (Markdown page_intro))
               (add (Drew (Title (lit "Pratiti"))) w)))).

Definition generation_roles : list str :=
  [research_role; tag_role; insight_role; explanation_role].

(** The number of calls in a log that carry the sentiment role. *)
Definition sentiment_calls (l : list event) : nat :=
  length (filter (fun c => str_eqb (role c) sentiment_role) (calls_of l)).

(** The value a saved entry holds under a key. *)
Fixpoint dict_get (k : str) (d : list (str * json)) : option json :=
  match d with
  | [] => None
  | (k', x) :: d' => if str_eqb k k' then Some x else dict_get k d'
  end.

Definition field (k : str) (e : json) : option json :=
  match e with
  | JObj d => dict_get k d
  | _ => None
  end.

(** *** Notions about whole words *)

(** [text] reads [k] up to case. *)
Fixpoint same_letters (k text : str) : bool :=
  match k, text with
  | [], [] => true
  | x :: k', c :: text' => Ascii.eqb (lower c) (lower x) && same_letters k' text'
  | _, _ => false
  end.

(** [k] stands as a whole word at the head of [s], [prev] being the
    character before: [s] starts with [k] up to case, and neither the
    character before nor the character after is a word character. *)
Definition stands_here (k : str) (prev : option ascii) (s : str) : bool :=
  negb (word_side prev)
  && same_letters k (firstn (length k) s)
  && negb (word_side (hd_error (skipn (length k) s))).

(** The number of positions of a text at which [k] stands as a whole
    word. *)
Fixpoint count_standalone_from (k : str) (prev : option ascii) (s : str) : nat :=
  (if stands_here k prev s then 1 else 0)
  + match s with
    | [] => 0
    | c :: s' => count_standalone_from k (Some c) s'
    end.

Definition count_standalone (k text : str) : nat :=
  count_standalone_from k None text.

(** The last character of [pre], if any. *)
Definition last_char (pre : str) : option ascii :=
  fold_left (fun _ c => Some c) pre None.

(** [k] occurs in [text] as a whole word, up to case. *)
Definition occurs_standalone (k text : str) : Prop :=
  exists pre mid post,
    text = pre ++ mid ++ post
    /\ same_letters k mid = true
    /\ word_side (last_char pre) = false
    /\ word_side (hd_error post) = false.

(** The number of whole-word positions of [k] in a text, counted from the
    left without overlap: after a position that counts, the characters of
    the keyword are passed before the next one is looked for. *)
Fixpoint count_apart_from (k : str) (prev : option ascii) (skip : nat)
    (s : str) : nat :=
  match s with
  | [] => 0
  | c :: s' =>
      match skip with
      | S n => count_apart_from k (Some c) n s'
      | 0 =>
          if stands_here k prev s
          then S (count_apart_from k (Some c) (pred (length k)) s')
          else count_apart_from k (Some c) 0 s'
      end
  end.

Definition count_apart (k text : str) : nat := count_apart_from k None 0 text.

(** The claim on highlighting one keyword: a keyword that occurs as a
    whole word is wrapped, as many times as it stands as a whole word,
    counted without overlap. *)
Definition highlight_claim (text k : str) : Prop :=
  occurs_standalone k text ->
  exists out,
    highlight_keywords text [k] = Ok out
    /\ contains (wrapped k) out = true
    /\ count (wrapped k) out = count_apart k text.

(** A keyword that starts and ends with a word character. *)
Definition word_ends (k : str) : bool :=
  match k with
  | [] => false
  | x :: _ => is_word x && is_word (last k x)
  end.

Definition no_backslash (k : str) : bool :=
  forallb (fun c => negb (Ascii.eqb c backslash)) k.

Definition star : ascii := "*"%char.

(** A keyword without a star. *)
Definition no_star (k : str) : bool :=
  forallb (fun c => negb (Ascii.eqb c star)) k.

(** The scan of [highlight_keywords] for a keyword without backslash,
    from a position between matches. *)
Definition scan_for (k : str) (prev : option ascii) (s : str) : str :=
  sub_loop (word_pattern k) (map Chars (wrapped k)) prev 0 s.

(** The character seen last after passing [a]. *)
Definition seen (prev : option ascii) (a : str) : option ascii :=
  fold_left (fun _ c => Some c) a prev.

(** *** Notions about JSON values *)

(** The fuel [scan_once] uses on the encoding of a value. *)
Fixpoint need (v : json) : nat :=
  match v with
  | JStr _ => 1
  | JArr items => S (fold_right (fun x n => S (Nat.max (need x) n)) 0 items)
  | JObj members =>
      S (fold_right (fun kv n => S (Nat.max (need (snd kv)) n)) 0 members)
  end.

(** No key occurs twice, anywhere in the value. *)
Fixpoint distinct (keys : list str) : bool :=
  match keys with
  | [] => true
  | k :: keys' => negb (existsb (str_eqb k) keys') && distinct keys'
  end.

Fixpoint distinct_keys (v : json) : bool :=
  match v with
  | JStr _ => true
  | JArr items => forallb distinct_keys items
  | JObj members =>
      distinct (map fst members)
      && forallb (fun kv => distinct_keys (snd kv)) members
  end.

(** Induction on values, through the lists they nest. *)
Section JsonInduction.

Variable P : json -> Prop.
Hypothesis HS : forall s, P (JStr s).
Hypothesis HA : forall items, Forall P items -> P (JArr items).
Hypothesis HO :
  forall members, Forall (fun kv => P (snd kv)) members -> P (JObj members).

Fixpoint json_induction (v : json) : P v :=
  match v with
  | JStr s => HS s
  | JArr items =>
      HA ((fix go (l : list json) : Forall P l :=
             match l with
             | [] => Forall_nil P
             | x :: l' => Forall_cons x (json_induction x) (go l')
             end) items)
  | JObj members =>
      HO ((fix go (l : list (str * json)) : Forall (fun kv => P (snd kv)) l :=
             match l with
             | [] => Forall_nil _
             | (k, x) :: l' =>
                 @Forall_cons _ (fun kv => P (snd kv)) (k, x) l'
                   (json_induction x) (go l')
             end) members)
  end.

End JsonInduction.

(** A text that white space skipping leaves alone. *)
Definition solid (s : str) : Prop :=
  match s with [] => True | c :: _ => is_ws c = false end.

(** Every encoding starts with a quote, a bracket or a brace. *)
Definition opener (c : ascii) : Prop :=
  c = dquote \/ c = "["%char \/ c = "{"%char.

(** Reading an encoding of [v] gives [v] back and stops right after it. *)
Definition reads_back (v : json) : Prop :=
  distinct_keys v = true ->
  forall level fuel rest,
    need v <= fuel -> scan_once fuel (encode level v ++ rest) = Some (v, rest).

Definition need_items (items : list json) : nat :=
  fold_right (fun x n => S (Nat.max (need x) n)) 0 items.

Definition need_members (members : list (str * json)) : nat :=
  fold_right (fun kv n => S (Nat.max (need (snd kv)) n)) 0 members.

Definition encode_member (level : nat) (kv : str * json) : str :=
  let (k, x) := kv in
  encode_basestring_ascii k ++ lit ": " ++ encode level x.

(** *** Notions about the store *)

(** [save_insight] of several entries, one after the other. *)
Fixpoint save_all (entries : list json) (f : Store.file) : result Store.file :=
  match entries with
  | [] => Ok f
  | e :: later =>
      match Store.save_insight e f with
      | Ok f' => save_all later f'
      | Raise x => Raise x
      end
  end.

(** *** Notions about the calls of the generation block *)

Definition tag_call (article_text : str) : call :=
  {| role := tag_role; prompt := generate_tag_prompt article_text |}.

Definition insight_call (article_text research_output : str) : call :=
  {| role := insight_role;
     prompt := generate_prompt article_text research_output |}.

Definition explanation_call (full_insight : str) : call :=
  {| role := explanation_role;
     prompt := generate_explanation_prompt full_insight |}.

(** The four calls of a generation block, given what the endpoint sends
    for the research call and for the narrative call. *)
Definition block_calls (article_text research insight : str) : list call :=
  [ research_call article_text;
    tag_call article_text;
    insight_call article_text (strip research);
    explanation_call (strip insight) ].

(** The endpoint answers [calls], made one after the other after
    [history], with [contents]. *)
Fixpoint served (endpoint : list call -> call -> option str)
    (history calls : list call) (contents : list str) : Prop :=
  match calls, contents with
  | [], [] => True
  | c :: calls', x :: contents' =>
      endpoint history c = Some x
      /\ served endpoint (history ++ [c]) calls' contents'
  | _, _ => False
  end.

(** The widgets of a finished generation, lines 157-171. *)
Definition results_page
    (why_matters highlighted explanation research_output full_insight : str)
  : list event :=
  [ Drew (Subheader (lit "Why This Matters"));
    Drew (Text why_matters);
    Drew (Subheader (lit "Full Insight"));
    Drew (Markdown highlighted);
    Drew (Subheader (lit "How This Insight Was Derived"));
    Drew (Text explanation);
    Drew (Subheader (lit "Related Research & References"));
    Drew (Markdown research_output);
    Drew (DownloadButton (lit "Download Insight") full_insight
                         (lit "pratiti_insight.txt")) ].

(** A string of white space only. *)
Definition blank (s : str) : bool := forallb is_space s.

(** A string with white space at one of its ends. *)
Definition edge_space (s : str) : bool :=
  match s with
  | [] => false
  | c :: _ => is_space c || is_space (last s c)
  end.

(** A string without word characters. *)
Definition no_word (s : str) : bool := forallb (fun c => negb (is_word c)) s.

(** A printable ASCII character or a newline. *)
Definition plain (c : ascii) : bool :=
  between 32 126 (code c) || Ascii.eqb c nl.

(** An interaction that starts a generation block. *)
Definition pressed (interaction : str * bool) : bool :=
  truthy (fst interaction) && snd interaction.

(** A store file that is there and cannot be appended to: it is empty or
    blank, or it holds a JSON string or object instead of a list. *)
Definition unusable (f : Store.file) : Prop :=
  exists content,
    f = Some content
    /\ (skip_ws content = []
        \/ (exists s, loads content = Some (JStr s))
        \/ (exists members, loads content = Some (JObj members))).

(** A well-formed completion: the keys may come with others, the first
    choice with further choices. *)
Definition completion (content : str) : Response.value :=
  Response.Object
    [ (lit "id", Response.Text (lit "gen-1"));
      (lit "choices",
       Response.Array
         [ Response.Object
             [ (lit "index", Response.Number (lit "0"));
               (lit "message",
                Response.Object
                  [ (lit "role", Response.Text (lit "assistant"));
                    (lit "content", Response.Text content) ]) ] ]) ].

(** *** Sample inputs *)

Definition sample_article : str := lit "Inflation rose 2% in Q1.".
Definition sample_now : str := lit "2025-01-15T09:30:00".
Definition fresh : world := {| store := None; log := [] |}.

(** An endpoint that serves a fixed list of answers, one per call, and
    fails when the list is used up. *)
Definition scripted (answers : list (option str))
    (history : list call) (c : call) : option str :=
  nth (length history) answers None.

(** The answers of the scenarios, as the endpoint sends them. *)
Definition scenario : list (option str) :=
  [ Some (lit " Neutral ");
    Some (lit "IMF note");
    Some (lit "Finance, Policy, Inflation");
    Some (lit "Line one." ++ [nl] ++ lit "Line two." ++ [nl] ++ lit "Line three.");
    Some (lit "From the article.") ].

(** An endpoint that changes its mind about the sentiment: Positive on
    the first call it ever gets, Negative on any later sentiment call; the
    other calls get the answers of the scenarios. *)
Definition moody (history : list call) (c : call) : option str :=
  match history with
  | [] => Some (lit "Positive")
  | _ :: _ =>
      if str_eqb (role c) sentiment_role then Some (lit "Negative")
      else if str_eqb (role c) research_role then Some (lit "IMF note")
      else if str_eqb (role c) tag_role then Some (lit "Finance, Policy, Inflation")
      else if str_eqb (role c) insight_role
           then Some (lit "Line one." ++ [nl] ++ lit "Line two.")
      else Some (lit "From the article.")
  end.

(** An endpoint that is down. *)
Definition down (history : list call) (c : call) : option str := None.

(** Answers to the four calls of a generation block, and what the
    narrative looks like once highlighted. *)
Definition sample_research : str := lit "IMF note".
Definition sample_tags : str := lit "Finance, Policy".
Definition sample_insight : str :=
  lit " Policy shifts." ++ [nl] ++ lit "Rates follow. ".
Definition sample_explanation : str := lit "From the article.".
Definition sample_highlighted : str :=
  lit "**Policy** shifts." ++ [nl] ++ lit "Rates follow.".

Definition block_answers : list (option str) :=
  [ Some sample_research; Some sample_tags; Some sample_insight;
    Some sample_explanation ].

(** A world whose store file holds a JSON object. *)
Definition spoiled : world := {| store := Some (lit "{}"); log := [] |}.

End Notions.

(** * Properties *)

(** ** Strings *)

Module PyFacts.

Lemma str_eqb_eq (a b : str) : str_eqb a b = true <-> a = b.
Proof.
  revert b. induction a as [|x a IH]; intros [|y b]; simpl; try easy.
  rewrite andb_true_iff, Ascii.eqb_eq, IH.
  split; [intros [-> ->]; reflexivity | intros H; inversion H; auto].
Qed.

Lemma str_eqb_refl (a : str) : str_eqb a a = true.
Proof. now apply str_eqb_eq. Qed.

(** *** [split] and [join] *)

Lemma split_cons (sep c : ascii) (s : str) :
  split sep (c :: s) =
  if Ascii.eqb c sep then [] :: split sep s
  else match split sep s with
       | piece :: others => (c :: piece) :: others
       | [] => [[c]]
       end.
Proof.
  unfold split. simpl.
  destruct (split_pieces sep s) as [piece others].
  now destruct (Ascii.eqb c sep).
Qed.

Lemma split_not_nil (sep : ascii) (s : str) : split sep s <> [].
Proof. unfold split. now destruct (split_pieces sep s). Qed.

Lemma split_join (s : str) : join [nl] (split nl s) = s.
Proof.
  induction s as [|c s IH]; [reflexivity|].
  rewrite split_cons.
  destruct (Ascii.eqb_spec c nl) as [->|Hc].
  - pose proof (split_not_nil nl s) as Hne.
    destruct (split nl s) as [|p ps]; [easy|].
    change (join [nl] ([] :: p :: ps)) with (nl :: join [nl] (p :: ps)).
    now rewrite IH.
  - destruct (split nl s) as [|p ps] eqn:E; [now apply split_not_nil in E|].
    destruct ps; simpl in *; now rewrite IH.
Qed.

(** The first piece of a split is the text before the first separator. *)
Lemma split_first (sep : ascii) (s : str) :
  exists first others rest,
    split sep s = first :: others
    /\ s = first ++ rest
    /\ ~ In sep first
    /\ (rest = [] \/ exists r, rest = sep :: r).
Proof.
  induction s as [|c s (first & others & rest & Hs & Hcat & Hnot & Hrest)].
  - exists [], [], []. repeat split; auto.
  - rewrite split_cons, Hs.
    destruct (Ascii.eqb_spec c sep) as [->|Hc].
    + exists [], (first :: others), (sep :: s). repeat split; eauto.
    + exists (c :: first), others, rest. repeat split; auto.
      * simpl. now f_equal.
      * intros [H|H]; [now apply Hc | now apply Hnot].
Qed.

(** Splitting goes through a separator: pieces keep their order and none is
    merged or dropped. *)
Lemma split_app (sep : ascii) (a b : str) :
  split sep (a ++ sep :: b) = split sep a ++ split sep b.
Proof.
  induction a as [|c a IH]; simpl app.
  - rewrite split_cons, Ascii.eqb_refl. reflexivity.
  - rewrite !split_cons, IH.
    destruct (Ascii.eqb c sep); [reflexivity|].
    destruct (split sep a) as [|p ps] eqn:E; [now apply split_not_nil in E|].
    reflexivity.
Qed.

Lemma split_length (sep : ascii) (s : str) :
  length (split sep s) = S (count_occ ascii_dec s sep).
Proof.
  induction s as [|c s IH]; [reflexivity|].
  rewrite split_cons. simpl count_occ.
  destruct (Ascii.eqb_spec c sep) as [->|Hc].
  - destruct (ascii_dec sep sep); [simpl; now rewrite IH | easy].
  - destruct (ascii_dec c sep); [easy|].
    destruct (split sep s) as [|p ps] eqn:E; [now apply split_not_nil in E|].
    exact IH.
Qed.

(** *** [startswith], [contains] *)

Lemma startswith_app (w rest : str) : startswith w (w ++ rest) = true.
Proof. induction w; simpl; [reflexivity | now rewrite Ascii.eqb_refl]. Qed.

Lemma startswith_spec (w s : str) :
  startswith w s = true <-> exists rest, s = w ++ rest.
Proof.
  revert s. induction w as [|x w IH]; intros s; simpl.
  - split; eauto.
  - destruct s as [|c s].
    + split; [easy | intros [rest H]; easy].
    + rewrite andb_true_iff, Ascii.eqb_eq, IH. split.
      * intros [-> [rest ->]]. now exists rest.
      * intros [rest H]. inversion H. eauto.
Qed.

Lemma contains_app (pre w post : str) : contains w (pre ++ w ++ post) = true.
Proof.
  induction pre as [|c pre IH]; simpl app.
  - destruct (w ++ post) eqn:E; simpl; rewrite <- ?E, startswith_app;
      reflexivity.
  - simpl. rewrite IH. apply orb_true_r.
Qed.

Lemma contains_spec (w s : str) :
  contains w s = true <-> exists pre post, s = pre ++ w ++ post.
Proof.
  split.
  - induction s as [|c s IH]; simpl; rewrite orb_true_iff.
    + intros [H|H]; [|easy]. apply startswith_spec in H as [rest ->].
      now exists [], rest.
    + intros [H|H].
      * apply startswith_spec in H as [rest ->]. now exists [], rest.
      * destruct (IH H) as (pre & post & ->). now exists (c :: pre), post.
  - intros (pre & post & ->). apply contains_app.
Qed.

End PyFacts.

(** ** The prompt templates *)

Module PromptFacts.

Import Prompt PyFacts.

Lemma generate_prompt_article (article_text research_context : str) :
  contains article_text (generate_prompt article_text research_context) = true.
Proof.
  unfold generate_prompt.
  match goal with
  | |- contains _ (?a ++ ?b ++ _ ++ ?rest) = true =>
      rewrite (app_assoc a b); apply contains_app
  end.
Qed.

Lemma generate_prompt_context (article_text research_context : str) :
  contains research_context (generate_prompt article_text research_context)
  = true.
Proof.
  unfold generate_prompt.
  match goal with
  | |- contains _ (?a ++ ?b ++ ?c ++ ?d ++ ?e ++ _ ++ ?rest) = true =>
      rewrite (app_assoc a b), (app_assoc _ c), (app_assoc _ d),
        (app_assoc _ e);
      apply contains_app
  end.
Qed.

Lemma one_placeholder (head tail w : str) :
  contains w ([nl] ++ head ++ w ++ tail) = true.
Proof. rewrite (app_assoc [nl] head). apply contains_app. Qed.

(** C5.  Each of the five prompt builders returns a string that contains
    the article text it is given (the insight text, for the explanation
    builder) as a contiguous substring, whatever the text and whatever the
    research context handed to the narrative builder; the narrative builder
    embeds the research context as well. *)
Theorem prompts_embed_their_input
    (article_text research_context insight : str) :
  contains article_text (generate_prompt article_text research_context) = true
  /\ contains article_text (generate_research_prompt article_text) = true
  /\ contains article_text (generate_tag_prompt article_text) = true
  /\ contains article_text (generate_sentiment_prompt article_text) = true
  /\ contains insight (generate_explanation_prompt insight) = true
  /\ contains research_context
       (generate_prompt article_text research_context) = true.
Proof.
  repeat split.
  - apply generate_prompt_article.
  - apply one_placeholder.
  - apply one_placeholder.
  - apply one_placeholder.
  - apply one_placeholder.
  - apply generate_prompt_context.
Qed.

End PromptFacts.

(** ** The values derived from the answers *)

Module DeriveFacts.

Import App PyFacts.


(** C3, as the code has it.  For the empty narrative the list of lines is
    the one-element list holding the empty string, so [why_matters] is the
    empty string and not the placeholder. *)
Theorem why_matters_of_empty_narrative :
  insight_lines_of (lit "") = [lit ""]
  /\ why_matters_of (insight_lines_of (lit "")) = lit ""
  /\ why_matters_of (insight_lines_of (lit "")) <> lit "N/A".
Proof. repeat split. discriminate. Qed.

(** The three lines that derive [insight_lines], [why_matters] and
    [full_insight] from a narrative. *)
Lemma lines_of_narrative (insight : str) :
  full_insight_of (insight_lines_of insight) = insight
  /\ insight_lines_of insight <> []
  /\ (exists others,
        insight_lines_of insight
        = why_matters_of (insight_lines_of insight) :: others)
  /\ (exists rest,
        insight = why_matters_of (insight_lines_of insight) ++ rest
        /\ ~ In nl (why_matters_of (insight_lines_of insight))
        /\ (rest = [] \/ exists r, rest = nl :: r)).
Proof.
  unfold full_insight_of, insight_lines_of.
  destruct (split_first nl insight)
    as (first & others & rest & Hs & Hcat & Hnot & Hrest).
  repeat split.
  - apply split_join.
  - apply split_not_nil.
  - exists others. now rewrite Hs.
  - exists rest. rewrite Hs. simpl. auto.
Qed.

End DeriveFacts.

(** ** Highlighting *)

Module HighlightFacts.

Import PyFacts Re Notions.

(** C8.  With no keyword the text comes back unchanged. *)
Theorem highlight_no_keywords (text : str) :
  highlight_keywords text [] = Ok text.
Proof. reflexivity. Qed.

Lemma lower_is_word (c : ascii) : is_word (lower c) = is_word c.
Proof. destruct c as [[] [] [] [] [] [] [] []]; reflexivity. Qed.

Lemma same_case_is_word (c x : ascii) :
  Ascii.eqb (lower c) (lower x) = true -> is_word c = is_word x.
Proof.
  intros E. apply Ascii.eqb_eq in E.
  now rewrite <- (lower_is_word c), E, lower_is_word.
Qed.

(** *** The template of a keyword without backslash *)

Lemma template_plain (s : str) :
  forallb (fun c => negb (Ascii.eqb c backslash)) s = true ->
  parse_template s = Some (map Chars s).
Proof.
  unfold parse_template. induction s as [|c s IHs]; simpl; [reflexivity|].
  rewrite andb_true_iff. intros [Hc Hs]. rewrite Hc, IHs by exact Hs.
  reflexivity.
Qed.

Lemma expand_chars (s matched : str) : expand (map Chars s) matched = s.
Proof. induction s as [|c s IHs]; simpl; [reflexivity | now rewrite IHs]. Qed.

Lemma word_no_backslash (k : str) :
  forallb is_word k = true -> no_backslash k = true.
Proof.
  unfold no_backslash. induction k as [|x k IHk]; simpl; [reflexivity|].
  rewrite !andb_true_iff. intros [Hx Hk]. split; [|auto].
  destruct (Ascii.eqb_spec x backslash) as [->|]; [discriminate Hx | reflexivity].
Qed.

Lemma wrapped_template (k : str) :
  no_backslash k = true ->
  parse_template (wrapped k) = Some (map Chars (wrapped k)).
Proof.
  intros Hk. apply template_plain. unfold wrapped.
  unfold no_backslash in Hk. rewrite !forallb_app, Hk. reflexivity.
Qed.

Lemma word_ends_of_word (k : str) :
  k <> [] -> forallb is_word k = true -> word_ends k = true.
Proof.
  intros Hne Hk. destruct k as [|x k]; [easy|]. unfold word_ends.
  rewrite forallb_forall in Hk. rewrite !Hk; [reflexivity| |now left].
  destruct (@exists_last _ (x :: k) Hne) as (l & a & E).
  rewrite E at 1. rewrite last_last. rewrite E. apply in_or_app. right. now left.
Qed.

(** *** The pattern of a word *)

Lemma same_letters_length (k text : str) :
  same_letters k text = true -> length text = length k.
Proof.
  revert text. induction k as [|x k IHk]; intros [|c text]; simpl; try easy.
  rewrite andb_true_iff. intros [_ H]. now rewrite (IHk _ H).
Qed.

Lemma same_letters_refl (k : str) : same_letters k k = true.
Proof. induction k; simpl; [reflexivity | now rewrite Ascii.eqb_refl]. Qed.

Lemma same_letters_word (k text : str) :
  same_letters k text = true -> forallb is_word k = true ->
  forallb is_word text = true.
Proof.
  revert text. induction k as [|x k IHk]; intros [|c text]; simpl; try easy.
  rewrite !andb_true_iff. intros [E H] [Hx Hk].
  rewrite (same_case_is_word _ _ E). auto.
Qed.

Lemma match_tail (k : str) (d : ascii) :
  k <> [] -> is_word (last k d) = true ->
  forall prev s,
    match_here (map Literal k ++ [Boundary]) prev s
    = if same_letters k (firstn (length k) s)
         && negb (word_side (hd_error (skipn (length k) s)))
      then Some (length k) else None.
Proof.
  induction k as [|x k IHk]; intros Hne Hlast prev s; [easy|].
  destruct s as [|c s]; [reflexivity|].
  cbn [map app match_here length firstn skipn same_letters].
  destruct (Ascii.eqb (lower c) (lower x)) eqn:E; [|reflexivity].
  rewrite andb_true_l. destruct k as [|y k].
  - cbn [map app match_here length firstn skipn same_letters].
    cbn [last] in Hlast.
    unfold at_boundary. cbn [word_side].
    rewrite (same_case_is_word _ _ E), Hlast. simpl.
    now destruct (word_side (hd_error s)).
  - rewrite IHk; [|easy|exact Hlast]. now destruct (_ && _).
Qed.

Lemma match_word (k : str) (prev : option ascii) (s : str) :
  word_ends k = true ->
  match_here (word_pattern k) prev s
  = if stands_here k prev s then Some (length k) else None.
Proof.
  intros Hends. destruct k as [|x k]; [easy|].
  unfold word_ends in Hends. apply andb_true_iff in Hends as [Hx Hlast].
  unfold word_pattern, stands_here. cbn [match_here].
  rewrite (@match_tail (x :: k) x) by easy.
  destruct s as [|c s].
  - cbn. rewrite andb_false_r. now destruct (at_boundary prev []).
  - cbn [length firstn same_letters].
    destruct (Ascii.eqb (lower c) (lower x)) eqn:E.
    + unfold at_boundary. cbn [hd_error word_side].
      rewrite (same_case_is_word _ _ E), Hx.
      destruct (word_side prev); [reflexivity|]. simpl.
      now destruct (_ && _).
    + rewrite !andb_false_l, andb_false_r.
      now destruct (at_boundary prev (c :: s)).
Qed.

(** *** Scans that pass a stretch of text *)

Lemma sub_loop_skip (p : list item) (repl : list piece) (a b : str)
    (prev : option ascii) :
  sub_loop p repl prev (length a) (a ++ b) = sub_loop p repl (seen prev a) 0 b.
Proof.
  revert prev. induction a as [|c a IHa]; intros prev; [reflexivity|].
  simpl. apply IHa.
Qed.

Lemma count_from_skip (w a b : str) :
  count_from w (length a) (a ++ b) = count_from w 0 b.
Proof. induction a as [|c a IHa]; [reflexivity | exact IHa]. Qed.

Lemma count_from_self (w rest : str) :
  w <> [] -> count_from w 0 (w ++ rest) = S (count_from w 0 rest).
Proof.
  intros Hne. destruct w as [|x w]; [easy|].
  change ((x :: w) ++ rest) with (x :: w ++ rest).
  cbn [count_from]. change (x :: w ++ rest) with ((x :: w) ++ rest).
  rewrite startswith_app. simpl length. simpl pred.
  now rewrite count_from_skip.
Qed.

Section Keyword.

Variable k : str.
Hypothesis k_ends : word_ends k = true.
Hypothesis k_plain : no_backslash k = true.

Local Abbreviation out := (scan_for k).

Lemma keyword_not_empty : k <> [].
Proof. now destruct k. Qed.

Lemma first_is_word : exists x k', k = x :: k' /\ is_word x = true.
Proof.
  destruct k as [|x k']; [easy|]. exists x, k'. split; [reflexivity|].
  unfold word_ends in k_ends. now apply andb_true_iff in k_ends.
Qed.

Lemma stands_here_nil (prev : option ascii) : stands_here k prev [] = false.
Proof.
  unfold stands_here. destruct k; [easy|]. simpl. now rewrite andb_false_r.
Qed.

Lemma out_nil (prev : option ascii) : out prev [] = [].
Proof.
  unfold scan_for. cbn [sub_loop].
  now rewrite match_word, stands_here_nil by assumption.
Qed.

Lemma out_copy (prev : option ascii) (c : ascii) (s : str) :
  stands_here k prev (c :: s) = false ->
  out prev (c :: s) = c :: out (Some c) s.
Proof.
  intros H. unfold scan_for. cbn [sub_loop].
  now rewrite match_word, H by assumption.
Qed.

Lemma stands_here_split (prev : option ascii) (s : str) :
  stands_here k prev s = true ->
  exists mid rest,
    s = mid ++ rest
    /\ same_letters k mid = true
    /\ word_side prev = false
    /\ word_side (hd_error rest) = false.
Proof.
  unfold stands_here. rewrite !andb_true_iff, !negb_true_iff.
  intros [[Hprev Hsame] Hnext].
  exists (firstn (length k) s), (skipn (length k) s).
  now rewrite firstn_skipn.
Qed.

Lemma stands_here_app (prev : option ascii) (mid rest : str) :
  same_letters k mid = true ->
  stands_here k prev (mid ++ rest)
  = negb (word_side prev) && negb (word_side (hd_error rest)).
Proof.
  intros Hsame. unfold stands_here.
  rewrite <- (same_letters_length _ _ Hsame).
  rewrite firstn_app, firstn_all, Nat.sub_diag, app_nil_r.
  rewrite skipn_app, skipn_all, Nat.sub_diag. simpl.
  now rewrite Hsame, andb_true_r.
Qed.

Lemma out_match (prev : option ascii) (mid rest : str) :
  same_letters k mid = true ->
  stands_here k prev (mid ++ rest) = true ->
  out prev (mid ++ rest) = wrapped k ++ out (seen prev mid) rest.
Proof.
  intros Hsame Hst. pose proof (same_letters_length _ _ Hsame) as Hlen.
  pose proof keyword_not_empty as Hne.
  destruct mid as [|c mid]; [destruct k; easy|].
  unfold scan_for. change ((c :: mid) ++ rest) with (c :: mid ++ rest).
  cbn [sub_loop]. rewrite match_word by assumption.
  change (c :: mid ++ rest) with ((c :: mid) ++ rest). rewrite Hst.
  rewrite <- Hlen. simpl length. cbv iota beta.
  rewrite expand_chars, sub_loop_skip. reflexivity.
Qed.

Lemma wrapped_stars : wrapped k = star :: star :: k ++ [star; star].
Proof. reflexivity. Qed.

Lemma out_starts_wrapped (prev : option ascii) (s : str) :
  stands_here k prev s = true -> exists t, out prev s = wrapped k ++ t.
Proof.
  intros Hst. destruct (stands_here_split _ _ Hst) as (mid & rest & -> & Hsame & _).
  rewrite out_match by assumption. eauto.
Qed.

(** A keyword that stands somewhere as a whole word is wrapped
    somewhere. *)
Lemma out_contains (s : str) (prev : option ascii) :
  0 < count_standalone_from k prev s ->
  contains (wrapped k) (out prev s) = true.
Proof.
  revert prev. induction s as [|c s IHs]; intros prev H.
  - simpl in H. rewrite stands_here_nil in H. lia.
  - destruct (stands_here k prev (c :: s)) eqn:Hst.
    + destruct (out_starts_wrapped _ _ Hst) as [t ->].
      apply (contains_app [] (wrapped k) t).
    + cbn [count_standalone_from] in H. rewrite Hst in H.
      rewrite out_copy by exact Hst. cbn [contains].
      rewrite IHs by exact H. apply orb_true_r.
Qed.

(** A text in which the keyword stands nowhere as a whole word is left
    alone. *)
Lemma out_unchanged (s : str) (prev : option ascii) :
  count_standalone_from k prev s = 0 -> out prev s = s.
Proof.
  revert prev. induction s as [|c s IHs]; intros prev H; [apply out_nil|].
  cbn [count_standalone_from] in H.
  destruct (stands_here k prev (c :: s)) eqn:Hst; [lia|].
  rewrite out_copy by exact Hst. f_equal. apply IHs. lia.
Qed.

Lemma occurs_counted (text : str) :
  occurs_standalone k text -> 0 < count_standalone k text.
Proof.
  intros (pre & mid & post & -> & Hsame & Hpre & Hpost).
  unfold count_standalone, last_char in *.
  revert Hpre. generalize (@None ascii).
  induction pre as [|c pre IHpre]; intros prev Hpre.
  - simpl in Hpre. simpl app.
    assert (Hst : stands_here k prev (mid ++ post) = true).
    { rewrite stands_here_app by exact Hsame. now rewrite Hpre, Hpost. }
    destruct (mid ++ post); simpl; rewrite Hst; lia.
  - change ((c :: pre) ++ mid ++ post) with (c :: pre ++ mid ++ post).
    cbn [count_standalone_from]. specialize (IHpre (Some c) Hpre). lia.
Qed.

Lemma highlight_one (text : str) :
  highlight_keywords text [k] = Ok (out None text).
Proof.
  unfold highlight_keywords, sub.
  now rewrite wrapped_template by exact k_plain.
Qed.

(** Counting positions apart: after a position taken, as many characters
    are passed over as the keyword has after its first. *)
Lemma count_apart_skip (a b : str) (prev : option ascii) :
  count_apart_from k prev (length a) (a ++ b)
  = count_apart_from k (seen prev a) 0 b.
Proof.
  revert prev. induction a as [|c a IHa]; intros prev; [reflexivity|].
  simpl. apply IHa.
Qed.

Lemma count_apart_match (prev : option ascii) (mid rest : str) :
  same_letters k mid = true ->
  stands_here k prev (mid ++ rest) = true ->
  count_apart_from k prev 0 (mid ++ rest)
  = S (count_apart_from k (seen prev mid) 0 rest).
Proof.
  intros Hsame Hst. pose proof (same_letters_length _ _ Hsame) as Hlen.
  pose proof keyword_not_empty as Hne.
  destruct mid as [|c mid]; [destruct k; easy|].
  change ((c :: mid) ++ rest) with (c :: mid ++ rest).
  cbn [count_apart_from].
  change (c :: mid ++ rest) with ((c :: mid) ++ rest). rewrite Hst.
  rewrite <- Hlen. simpl length. simpl pred.
  now rewrite count_apart_skip.
Qed.

Section Word.

Hypothesis k_word : forallb is_word k = true.

(** *** Counting the whole-word positions *)

Lemma count_standalone_inside (a b : str) (prev : option ascii) :
  word_side prev = true -> forallb is_word a = true ->
  count_standalone_from k prev (a ++ b)
  = count_standalone_from k (seen prev a) b.
Proof.
  revert prev. induction a as [|c a IHa]; intros prev Hprev Ha; [reflexivity|].
  simpl in Ha. apply andb_true_iff in Ha as [Hc Ha].
  change ((c :: a) ++ b) with (c :: a ++ b). cbn [count_standalone_from].
  unfold stands_here at 1. rewrite Hprev. simpl.
  now apply IHa.
Qed.

Lemma count_standalone_match (prev : option ascii) (mid rest : str) :
  same_letters k mid = true ->
  stands_here k prev (mid ++ rest) = true ->
  count_standalone_from k prev (mid ++ rest)
  = S (count_standalone_from k (seen prev mid) rest).
Proof.
  intros Hsame Hst.
  pose proof (same_letters_word _ _ Hsame k_word) as Hmid.
  pose proof keyword_not_empty as Hne.
  destruct mid as [|c mid]; [destruct k; easy|].
  simpl in Hmid. apply andb_true_iff in Hmid as [Hc Hmid].
  change ((c :: mid) ++ rest) with (c :: mid ++ rest).
  cbn [count_standalone_from].
  change (c :: mid ++ rest) with ((c :: mid) ++ rest). rewrite Hst.
  now rewrite count_standalone_inside.
Qed.

(** On a keyword of word characters no two whole-word positions overlap:
    counting them apart is counting them. *)
Lemma count_apart_word (n : nat) :
  forall s prev,
    length s <= n ->
    count_apart_from k prev 0 s = count_standalone_from k prev s.
Proof.
  pose proof keyword_not_empty as Hne.
  induction n as [|n IHn]; intros s prev Hlen.
  - destruct s; [|simpl in Hlen; lia]. simpl. now rewrite stands_here_nil.
  - destruct s as [|c s]; [simpl; now rewrite stands_here_nil|].
    destruct (stands_here k prev (c :: s)) eqn:Hst.
    + destruct (stands_here_split _ _ Hst) as (mid & rest & E & Hsame & _).
      rewrite E in *.
      rewrite count_apart_match, count_standalone_match by assumption.
      f_equal. apply IHn. rewrite length_app in Hlen.
      pose proof (same_letters_length _ _ Hsame).
      destruct k; [easy|]. simpl in *. lia.
    + cbn [count_apart_from count_standalone_from]. rewrite Hst. simpl.
      apply IHn. simpl in Hlen. lia.
Qed.

End Word.

(** *** No wrapped form arises by accident *)

Section Starless.

Hypothesis k_stars : no_star k = true.

Lemma seen_keyword (prev : option ascii) : word_side (seen prev k) = true.
Proof.
  pose proof keyword_not_empty as Hne.
  destruct (@exists_last _ k Hne) as (u & x & E).
  unfold word_ends in k_ends. rewrite E in *.
  destruct (u ++ [x]) as [|y t] eqn:Ey; [now destruct u|].
  apply andb_true_iff in k_ends as [_ Hlast].
  rewrite <- Ey in *. rewrite last_last in Hlast.
  unfold seen. rewrite fold_left_app. exact Hlast.
Qed.

(** If the output reads a stretch without stars that ends on a word
    character, and then two stars, so did the text. *)
Lemma out_reads (u : str) :
  no_star u = true ->
  forall prev s,
    word_side (seen prev u) = true ->
    startswith (u ++ [star; star]) (out prev s) = true ->
    exists rest, s = u ++ star :: rest.
Proof.
  induction u as [|x u IHu]; intros Hu prev s Hprev H.
  - simpl in Hprev. destruct s as [|c s].
    + now rewrite out_nil in H.
    + rewrite out_copy in H.
      * cbn [app startswith] in H. apply andb_true_iff in H as [E _].
        apply Ascii.eqb_eq in E. subst c. now exists s.
      * unfold stands_here. now rewrite Hprev.
  - cbn [no_star forallb] in Hu. apply andb_true_iff in Hu as [Hx Hu].
    apply negb_true_iff in Hx.
    destruct s as [|c s]; [now rewrite out_nil in H|].
    destruct (stands_here k prev (c :: s)) eqn:Hst.
    + destruct (out_starts_wrapped _ _ Hst) as [t Ht]. rewrite Ht in H.
      rewrite wrapped_stars in H.
      cbn [app startswith] in H. now rewrite Hx in H.
    + rewrite out_copy in H by exact Hst. cbn [app startswith] in H.
      apply andb_true_iff in H as [E H]. apply Ascii.eqb_eq in E. subst c.
      destruct (IHu Hu (Some x) s) as [rest ->]; [exact Hprev | exact H |].
      now exists rest.
Qed.

Lemma word_not_star (c : ascii) : is_word c = true -> Ascii.eqb c star = false.
Proof.
  intros H. destruct (Ascii.eqb_spec c star) as [->|]; [discriminate H|reflexivity].
Qed.

Lemma first_not_star :
  exists x k', k = x :: k' /\ Ascii.eqb x star = false.
Proof.
  destruct first_is_word as (x & k' & E & Hx). exists x, k'.
  split; [exact E|]. now apply word_not_star.
Qed.

Lemma out_not_keyword_stars (prev : option ascii) (s : str) :
  word_side prev = false ->
  startswith (k ++ [star; star]) (out prev s) = false.
Proof.
  intros Hprev. destruct (startswith _ _) eqn:H; [|reflexivity].
  destruct (@out_reads k k_stars prev s) as [rest ->];
    [apply seen_keyword | exact H |].
  assert (Hst : stands_here k prev (k ++ star :: rest) = true).
  { rewrite stands_here_app by apply same_letters_refl. now rewrite Hprev. }
  destruct (out_starts_wrapped _ _ Hst) as [t Ht]. rewrite Ht in H.
  rewrite wrapped_stars in H.
  destruct first_not_star as (x & k' & E & Hx). rewrite E in H.
  cbn [app startswith] in H. now rewrite Hx in H.
Qed.

Lemma copied_not_wrapped (c : ascii) (s : str) :
  startswith (wrapped k) (c :: out (Some c) s) = false.
Proof.
  rewrite wrapped_stars. cbn [startswith].
  destruct (Ascii.eqb_spec star c) as [<-|]; [|reflexivity].
  rewrite andb_true_l. destruct s as [|c2 s]; [now rewrite out_nil|].
  destruct (stands_here k (Some star) (c2 :: s)) eqn:Hst.
  - destruct (out_starts_wrapped _ _ Hst) as [t ->]. rewrite wrapped_stars.
    destruct first_not_star as (x & k' & E & Hx). rewrite E.
    cbn [app startswith]. rewrite Ascii.eqb_refl, andb_true_l.
    now rewrite Hx.
  - rewrite out_copy by exact Hst. cbn [startswith].
    destruct (Ascii.eqb_spec star c2) as [<-|]; [|reflexivity].
    rewrite andb_true_l. now apply out_not_keyword_stars.
Qed.

(** The wrapped forms of the output are as many as the whole-word
    positions of the text, counted apart. *)
Lemma count_out (n : nat) :
  forall s prev,
    length s <= n ->
    count_from (wrapped k) 0 (out prev s) = count_apart_from k prev 0 s.
Proof.
  pose proof keyword_not_empty as Hne.
  induction n as [|n IHn]; intros s prev Hlen.
  - destruct s; [|simpl in Hlen; lia]. now rewrite out_nil.
  - destruct s as [|c s]; [now rewrite out_nil|].
    destruct (stands_here k prev (c :: s)) eqn:Hst.
    + destruct (stands_here_split _ _ Hst) as (mid & rest & E & Hsame & _).
      rewrite E in *. rewrite out_match by assumption.
      rewrite (@count_apart_match prev mid rest Hsame Hst).
      rewrite count_from_self by (unfold wrapped; discriminate).
      f_equal. apply IHn.
      rewrite length_app in Hlen.
      pose proof (same_letters_length _ _ Hsame).
      destruct k; [easy|]. simpl in *. lia.
    + rewrite out_copy by exact Hst. cbn [count_from count_apart_from].
      rewrite copied_not_wrapped, Hst. apply IHn. simpl in Hlen. lia.
Qed.

End Starless.

End Keyword.

Lemma word_no_star (k : str) : forallb is_word k = true -> no_star k = true.
Proof.
  induction k as [|x k IH]; [reflexivity|]. simpl.
  intros H. apply andb_true_iff in H as [Hx H].
  now rewrite (word_not_star _ Hx), IH.
Qed.



(** A keyword with a space in it can stand at two positions that overlap;
    it is wrapped once, and counted once when the positions are counted
    apart. *)
Lemma highlight_overlapping_keyword :
  count_standalone (lit "a a") (lit "a a a") = 2
  /\ count_apart (lit "a a") (lit "a a a") = 1
  /\ highlight_keywords (lit "a a a") [lit "a a"] = Ok (lit "**a a** a")
  /\ count (wrapped (lit "a a")) (lit "**a a** a") = 1.
Proof. repeat split. Qed.

(** The count is bound to keywords without a star: with stars inside the
    keyword, the stars put around it can make a second wrapped form with
    the stars of the text.  The keyword a****a stands once in the text
    below, and its wrapped form is counted twice in the result. *)
Lemma highlight_starred_keyword :
  word_ends (lit "a****a") = true
  /\ no_backslash (lit "a****a") = true
  /\ count_apart (lit "a****a") (lit "**a**a****a**a**") = 1
  /\ highlight_keywords (lit "**a**a****a**a**") [lit "a****a"]
     = Ok (lit "**a****a****a****a**")
  /\ count (wrapped (lit "a****a")) (lit "**a****a****a****a**") = 2.
Proof. repeat split. Qed.


(** A keyword with a backslash can make the replacement template
    unreadable: the call raises whatever the text. *)
Lemma highlight_backslash_keyword (text : str) :
  highlight_keywords text [lit "R\D"] = Raise TemplateError.
Proof. reflexivity. Qed.

End HighlightFacts.

(** ** The script *)

Module AppFacts.

Import App Prompt Notions PyFacts.

Lemma calls_of_app (a b : list event) :
  calls_of (a ++ b) = calls_of a ++ calls_of b.
Proof.
  induction a as [|[c|x|e] a IH]; simpl; [reflexivity| |assumption|assumption].
  now rewrite IH.
Qed.

Lemma saves_of_app (a b : list event) :
  saves_of (a ++ b) = saves_of a ++ saves_of b.
Proof.
  induction a as [|[c|x|e] a IH]; simpl; [reflexivity|assumption|assumption|].
  now rewrite IH.
Qed.

Section Run.

Variable endpoint : list call -> call -> option str.
Variable now : str.

Lemma bind_query {A} (p r : str) (k : str -> M A) (w : world) :
  bind (query_openrouter endpoint p r) k w =
  match endpoint (calls_of (log w)) {| role := r; prompt := p |} with
  | Some content => k (strip content) (add (Called {| role := r; prompt := p |}) w)
  | None => (Raise RemoteCallError, add (Called {| role := r; prompt := p |}) w)
  end.
Proof.
  unfold bind, query_openrouter. now destruct (endpoint _ _).
Qed.

Lemma bind_draw {A} (x : widget) (k : unit -> M A) (w : world) :
  bind (draw x) k w = k tt (add (Drew x) w).
Proof. reflexivity. Qed.

Lemma sentiment_block_run (article_text : str) (w : world) :
  article_text <> [] ->
  sentiment_block endpoint article_text w
  = (Ok (eager_sentiment endpoint article_text w),
     add (Called (sentiment_call article_text)) w).
Proof.
  intros Hne. unfold sentiment_block, eager_sentiment.
  destruct article_text as [|c a]; [easy|].
  change (truthy (c :: a)) with true. cbv iota.
  unfold try_except, query_openrouter. fold (sentiment_call (c :: a)).
  now destruct (endpoint _ _).
Qed.

Lemma sidebar_ok (sentiment : str) (w : world) :
  fst (sidebar sentiment w) = Ok tt
  /\ store (snd (sidebar sentiment w)) = store w
  /\ exists drawn,
       log (snd (sidebar sentiment w)) = log w ++ drawn
       /\ calls_of drawn = [] /\ saves_of drawn = [].
Proof.
  unfold sidebar. destruct (truthy sentiment).
  - rewrite !bind_draw. unfold draw, record. simpl.
    repeat split. rewrite <- !app_assoc. simpl. eauto.
  - simpl. repeat split. exists []. now rewrite app_nil_r.
Qed.

Lemma eager_sentiment_page (article_text : str) (w : world) :
  eager_sentiment endpoint article_text
    (add (Drew (Markdown page_intro)) (add (Drew (Title (lit "Pratiti"))) w))
  = eager_sentiment endpoint article_text w.
Proof.
  unfold eager_sentiment. simpl. now rewrite !calls_of_app, !app_nil_r.
Qed.

Lemma script_run (article_text : str) (button : bool) (w : world) :
  article_text <> [] ->
  script endpoint now article_text button w
  = (if button
     then generate_insight endpoint now article_text
            (eager_sentiment endpoint article_text w)
     else ret tt) (preamble endpoint article_text w).
Proof.
  intros Hne. unfold script, preamble.
  rewrite !bind_draw.
  unfold bind at 1. rewrite sentiment_block_run by assumption.
  rewrite eager_sentiment_page. unfold bind.
  destruct (sidebar_ok (eager_sentiment endpoint article_text w)
              (add (Called (sentiment_call article_text))
                 (add (Drew (Markdown page_intro))
                    (add (Drew (Title (lit "Pratiti"))) w)))) as (Hfst & _).
  destruct (sidebar _ _) as [r w']. simpl in Hfst. subst r.
  destruct article_text; [easy|]. reflexivity.
Qed.

Lemma preamble_log (article_text : str) (w : world) :
  store (preamble endpoint article_text w) = store w
  /\ exists drawn,
       log (preamble endpoint article_text w)
       = log w ++ Drew (Title (lit "Pratiti")) :: Drew (Markdown page_intro)
                  :: Called (sentiment_call article_text) :: drawn
       /\ calls_of drawn = [] /\ saves_of drawn = [].
Proof.
  unfold preamble.
  destruct (sidebar_ok (eager_sentiment endpoint article_text w)
              (add (Called (sentiment_call article_text))
                 (add (Drew (Markdown page_intro))
                    (add (Drew (Title (lit "Pratiti"))) w))))
    as (_ & Hst & drawn & Hlog & Hc & Hs).
  split; [exact Hst|].
  exists drawn. rewrite Hlog. simpl. rewrite <- !app_assoc. simpl. auto.
Qed.

(** *** The generation block *)

Ltac query :=
  rewrite bind_query; cbv beta zeta;
  match goal with
  | |- context [match endpoint ?h ?c with _ => _ end] =>
      destruct (endpoint h c) as [?content|] eqn:?E
  end.

Ltac flatten_log :=
  unfold bind, draw, record, lift, ret, add; simpl;
  rewrite <- ?app_assoc; simpl.

Lemma generate_insight_research_none (article_text sentiment : str) (w : world) :
  endpoint (calls_of (log w)) (research_call article_text) = None ->
  generate_insight endpoint now article_text sentiment w
  = (Ok tt,
     {| store := store w;
        log := log w ++ [ Called (research_call article_text);
                          Drew (ErrorBox RemoteCallError);
                          Drew (CodeBox RemoteCallError) ] |}).
Proof.
  intros H. unfold generate_insight, try_except.
  rewrite bind_query. fold (research_call article_text). rewrite H.
  flatten_log. reflexivity.
Qed.

(** C1.  When the endpoint fails on the research call, the first call of
    the generation block, the block ends there: it logs that one call and
    the two error widgets and nothing else, so the tag, narrative and
    explanation calls are not made, [save_insight] is not entered, and the
    store file is what it was. *)
Theorem research_failure_aborts (article_text sentiment : str) (w : world) :
  endpoint (calls_of (log w)) (research_call article_text) = None ->
  let w' := snd (generate_insight endpoint now article_text sentiment w) in
  log w' = log w ++ [ Called (research_call article_text);
                      Drew (ErrorBox RemoteCallError);
                      Drew (CodeBox RemoteCallError) ]
  /\ calls_of (log w') = calls_of (log w) ++ [research_call article_text]
  /\ saves_of (log w') = saves_of (log w)
  /\ store w' = store w.
Proof.
  intros H w'. subst w'. rewrite generate_insight_research_none by exact H.
  simpl. rewrite calls_of_app, saves_of_app. simpl.
  now rewrite app_nil_r.
Qed.

(** The same seen from a whole run with the button pressed. *)
Lemma script_research_failure (article_text : str) (w : world) :
  article_text <> [] ->
  endpoint (calls_of (log w) ++ [sentiment_call article_text])
           (research_call article_text) = None ->
  let w' := snd (script endpoint now article_text true w) in
  fst (script endpoint now article_text true w) = Ok tt
  /\ calls_of (log w')
     = calls_of (log w) ++ [sentiment_call article_text; research_call article_text]
  /\ saves_of (log w') = saves_of (log w)
  /\ store w' = store w.
Proof.
  intros Hne H w'. subst w'. rewrite script_run by exact Hne.
  destruct (preamble_log article_text w) as (Hst & drawn & Hlog & Hc & Hs).
  assert (Hcalls : calls_of (log (preamble endpoint article_text w))
                   = calls_of (log w) ++ [sentiment_call article_text]).
  { rewrite Hlog, calls_of_app. simpl. now rewrite Hc. }
  rewrite generate_insight_research_none by (now rewrite Hcalls).
  simpl. rewrite !calls_of_app, !saves_of_app, Hcalls. simpl.
  rewrite <- app_assoc, app_nil_r. repeat split; auto.
  rewrite Hlog, saves_of_app. simpl. now rewrite Hs, app_nil_r.
Qed.

Lemma bind_lift {A B} (r : result A) (k : A -> M B) (w : world) :
  bind (lift r) k w = match r with Ok a => k a w | Raise e => (Raise e, w) end.
Proof. unfold bind, lift. now destruct r. Qed.

Lemma save_insight_run (e : json) (w : world) :
  save_insight_stmt e w
  = match Store.save_insight e (store w) with
    | Ok f => (Ok tt, {| store := f; log := log w ++ [SaveInsight e] |})
    | Raise x => (Raise x, add (SaveInsight e) w)
    end.
Proof. reflexivity. Qed.

Ltac roles :=
  simpl; repeat (apply Forall_cons; [simpl; tauto|]); apply Forall_nil.

(** A branch of the block that enters [save_insight]. *)
Ltac saved :=
  match goal with
  | H : endpoint _ {| role := insight_role; prompt := _ |} = Some _ |- _ =>
      do 4 eexists; split; [exact H | reflexivity]
  end.

(** A branch of the block that stops before [save_insight]. *)
Ltac leaf :=
  flatten_log; split; [reflexivity|]; eexists; split; [reflexivity|];
  split; [roles | left; split; reflexivity].

(** What a generation block leaves behind, whatever the endpoint answers:
    it never raises, its calls carry the four roles of the block, and it
    enters [save_insight] at most once, with an entry made of the stripped
    answers and of the [sentiment] it was given. *)
Lemma generate_insight_trace (article_text sentiment : str) (w : world) :
  fst (generate_insight endpoint now article_text sentiment w) = Ok tt
  /\ exists new,
       log (snd (generate_insight endpoint now article_text sentiment w))
       = log w ++ new
       /\ Forall (fun c => In (role c) generation_roles) (calls_of new)
       /\ ((saves_of new = []
            /\ store (snd (generate_insight endpoint now article_text sentiment w))
               = store w)
           \/ exists history research content tags,
                endpoint history
                  {| role := insight_role;
                     prompt := generate_prompt article_text research |}
                = Some content
                /\ saves_of new
                   = [entry now article_text (strip content) research
                        (why_matters_of (insight_lines_of (strip content)))
                        tags sentiment]).
Proof.
  unfold generate_insight, try_except.
  query; [|leaf].
  query; [|leaf].
  query; [|leaf].
  query; [|leaf].
  rewrite !bind_draw, bind_lift.
  destruct (highlight_keywords _ _) as [highlighted|e]; [|leaf].
  rewrite !bind_draw, save_insight_run.
  unfold full_insight_of, insight_lines_of. rewrite split_join.
  destruct (Store.save_insight _ _) as [f|e].
  - flatten_log. split; [reflexivity|]. eexists. split; [reflexivity|].
    split; [roles|]. right. saved.
  - flatten_log. split; [reflexivity|]. eexists. split; [reflexivity|].
    split; [roles|]. right. saved.
Qed.


Lemma generate_insight_ok (article_text sentiment : str) (w : world) :
  fst (generate_insight endpoint now article_text sentiment w) = Ok tt.
Proof. apply generate_insight_trace. Qed.

Lemma script_ok (article_text : str) (button : bool) (w : world) :
  article_text <> [] ->
  fst (script endpoint now article_text button w) = Ok tt.
Proof.
  intros Hne. rewrite script_run by exact Hne.
  destruct button; [apply generate_insight_ok | reflexivity].
Qed.

(** C9.  When the endpoint fails on the eager sentiment call, the block
    does not raise: it returns the placeholder "Error detecting sentiment.".
    The run goes on as after any other answer: the sidebar shows the
    placeholder, the generation block runs if the button was pressed, with
    the placeholder as its sentiment, and the run ends without an
    exception. *)
Theorem sentiment_failure_recovered
    (article_text : str) (button : bool) (w : world) :
  article_text <> [] ->
  endpoint (calls_of (log w)) (sentiment_call article_text) = None ->
  sentiment_block endpoint article_text w
  = (Ok sentiment_error, add (Called (sentiment_call article_text)) w)
  /\ script endpoint now article_text button w
     = (if button
        then generate_insight endpoint now article_text sentiment_error
        else ret tt)
         {| store := store w;
            log := log w
                   ++ [ Drew (Title (lit "Pratiti"));
                        Drew (Markdown page_intro);
                        Called (sentiment_call article_text);
                        Drew (InSidebar (Subheader (lit "Sentiment Analysis")));
                        Drew (InSidebar
                                (Markdown
                                   (lit "**Sentiment:** Error detecting sentiment.")));
                        Drew (InSidebar (Caption sidebar_caption)) ] |}
  /\ fst (script endpoint now article_text button w) = Ok tt.
Proof.
  intros Hne Hdown. split; [|split].
  - rewrite sentiment_block_run by exact Hne.
    unfold eager_sentiment. now rewrite Hdown.
  - rewrite script_run by exact Hne.
    unfold preamble, eager_sentiment. rewrite Hdown.
    unfold sidebar. change (truthy sentiment_error) with true. cbv iota.
    rewrite !bind_draw. unfold draw, record, add. simpl.
    rewrite <- !app_assoc. reflexivity.
  - apply script_ok, Hne.
Qed.

Lemma generation_role_not_sentiment (r : str) :
  In r generation_roles -> r <> sentiment_role.
Proof.
  unfold generation_roles. simpl.
  intros [<-|[<-|[<-|[<-|[]]]]]; discriminate.
Qed.


(** C10.  For every narrative: joining its lines gives the narrative back;
    the list of lines is never empty, so [why_matters] is its first element
    and the placeholder branch is never taken; [why_matters] is the part of
    the narrative before its first newline, the whole of it when there is
    none.  In the generation block the narrative is the stripped answer to
    the narrative call, and an entry handed to [save_insight] holds that
    very string in its insight field and its first line in its
    why_matters field. *)
Theorem narrative_round_trip (insight article_text sentiment : str) (w : world) :
  full_insight_of (insight_lines_of insight) = insight
  /\ insight_lines_of insight <> []
  /\ (exists others,
        insight_lines_of insight
        = why_matters_of (insight_lines_of insight) :: others)
  /\ (exists rest,
        insight = why_matters_of (insight_lines_of insight) ++ rest
        /\ ~ In nl (why_matters_of (insight_lines_of insight))
        /\ (rest = [] \/ exists r, rest = nl :: r))
  /\ (exists new,
        log (snd (generate_insight endpoint now article_text sentiment w))
        = log w ++ new
        /\ Forall
             (fun e =>
                exists history research content,
                  endpoint history
                    {| role := insight_role;
                       prompt := generate_prompt article_text research |}
                  = Some content
                  /\ field (lit "insight") e = Some (JStr (strip content))
                  /\ field (lit "why_matters") e
                     = Some (JStr (why_matters_of
                                     (insight_lines_of (strip content)))))
             (saves_of new)).
Proof.
  destruct (DeriveFacts.lines_of_narrative insight) as (H1 & H2 & H3 & H4).
  repeat split; auto.
  destruct (generate_insight_trace article_text sentiment w)
    as (_ & new & Hnew & _ & Hsaves).
  exists new. split; [exact Hnew|].
  destruct Hsaves as [[-> _]|(h & r & c & t & Hc & ->)]; [constructor|].
  constructor; [|constructor]. exists h, r, c. auto.
Qed.

End Run.

Lemma research_failure_aborts_witness :
  down (calls_of (log fresh)) (research_call sample_article) = None
  /\ (let w' := snd (generate_insight down sample_now sample_article
                       (lit "Positive") fresh) in
      log w' = log fresh ++ [ Called (research_call sample_article);
                              Drew (ErrorBox RemoteCallError);
                              Drew (CodeBox RemoteCallError) ]
      /\ calls_of (log w') = calls_of (log fresh) ++ [research_call sample_article]
      /\ saves_of (log w') = saves_of (log fresh)
      /\ store w' = store fresh).
Proof.
  split; [reflexivity|].
  apply (@research_failure_aborts down sample_now sample_article
           (lit "Positive") fresh).
  reflexivity.
Defined.

Lemma sentiment_failure_recovered_witness :
  sample_article <> []
  /\ down (calls_of (log fresh)) (sentiment_call sample_article) = None
  /\ sentiment_block down sample_article fresh
     = (Ok sentiment_error, add (Called (sentiment_call sample_article)) fresh)
  /\ fst (script down sample_now sample_article true fresh) = Ok tt.
Proof.
  split; [discriminate|]. split; [reflexivity|].
  destruct (@sentiment_failure_recovered down sample_now sample_article true
              fresh) as (Hblock & _ & Hrun);
    [discriminate | reflexivity |].
  split; [exact Hblock | exact Hrun].
Defined.


(** A run of the scenarios from an empty store: the five calls in their
    order, the headline, the highlighted text, and a store file that loads
    as the one record saved. *)
Lemma scenario_run :
  let w' := snd (script (scripted scenario) sample_now sample_article true fresh) in
  let saved := entry sample_now sample_article
                 (lit "Line one." ++ [nl] ++ lit "Line two." ++ [nl] ++ lit "Line three.")
                 (lit "IMF note") (lit "Line one.")
                 [lit "Finance"; lit "Policy"; lit "Inflation"] (lit "Neutral") in
  map role (calls_of (log w'))
  = [sentiment_role; research_role; tag_role; insight_role; explanation_role]
  /\ In (Drew (Text (lit "Line one."))) (log w')
  /\ In (Drew (Markdown (lit "Line one." ++ [nl] ++ lit "Line two." ++ [nl]
                          ++ lit "Line three."))) (log w')
  /\ saves_of (log w') = [saved]
  /\ Store.load_insights (store w') = Ok (JArr [saved]).
Proof.
  vm_compute. repeat split.
  - do 11 right. left. reflexivity.
  - do 13 right. left. reflexivity.
Qed.

(** A run in which the endpoint answers the narrative call with white
    space only: the headline drawn is the empty string, and so is the
    why_matters field of the entry saved. *)
Lemma blank_narrative_run :
  let answers := [ Some (lit "Neutral"); Some (lit "IMF note");
                   Some (lit "Finance"); Some (lit "  ");
                   Some (lit "Nothing to explain.") ] in
  let w' := snd (script (scripted answers) sample_now sample_article true fresh) in
  In (Drew (Text (lit ""))) (log w')
  /\ map (field (lit "why_matters")) (saves_of (log w')) = [Some (JStr (lit ""))]
  /\ map (field (lit "insight")) (saves_of (log w')) = [Some (JStr (lit ""))].
Proof.
  vm_compute. repeat split. do 11 right. left. reflexivity.
Qed.

(** Across runs the sentiment is computed again: after a preview run that
    showed Positive, the run started by the button asks again, shows
    Negative and saves Negative. *)
Lemma second_run_asks_again :
  let w1 := session moody sample_now [(sample_article, false)] fresh in
  let w2 := session moody sample_now
              [(sample_article, false); (sample_article, true)] fresh in
  In (Drew (InSidebar (Markdown (lit "**Sentiment:** Positive")))) (log w1)
  /\ saves_of (log w1) = []
  /\ sentiment_calls (log w2) = 2
  /\ In (Drew (InSidebar (Markdown (lit "**Sentiment:** Negative")))) (log w2)
  /\ map (field (lit "sentiment")) (saves_of (log w2))
     = [Some (JStr (lit "Negative"))].
Proof.
  vm_compute. repeat split.
  - do 4 right. left. reflexivity.
  - do 10 right. left. reflexivity.
Qed.


End AppFacts.

(** ** JSON: what [dump] writes, [load] reads back *)

Module JsonFacts.

Import PyFacts Notions.

Lemma scanstring_char (c : ascii) (tail : str) :
  scanstring (encode_char c ++ tail) = push c (scanstring tail).
Proof.
  destruct c as [[] [] [] [] [] [] [] []]; reflexivity.
Qed.

Lemma scanstring_encode (s rest : str) :
  scanstring (flat_map encode_char s ++ dquote :: rest) = Some (s, rest).
Proof.
  induction s as [|c s IH]; [reflexivity|].
  simpl flat_map. rewrite <- app_assoc, scanstring_char, IH. reflexivity.
Qed.

Lemma skip_ws_solid (s : str) : solid s -> skip_ws s = s.
Proof. destruct s as [|c s]; simpl; [easy|]. now intros ->. Qed.

Lemma skip_ws_spaces (n : nat) (s : str) :
  skip_ws (repeat " "%char n ++ s) = skip_ws s.
Proof. induction n; simpl; auto. Qed.

Lemma skip_ws_newline_indent (level : nat) (s : str) :
  skip_ws (newline_indent level ++ s) = skip_ws s.
Proof. unfold newline_indent. simpl. apply skip_ws_spaces. Qed.

Lemma encode_opens (level : nat) (v : json) :
  exists c s, encode level v = c :: s /\ opener c.
Proof.
  unfold opener.
  destruct v as [x|[|i items]|[|m members]];
    do 2 eexists; (split; [reflexivity|]); auto.
Qed.

Lemma opener_solid (c : ascii) (s : str) : opener c -> solid (c :: s).
Proof. intros [-> | [-> | ->]]; reflexivity. Qed.

Lemma encode_solid (level : nat) (v : json) (rest : str) :
  solid (encode level v ++ rest).
Proof.
  destruct (encode_opens level v) as (c & s & E & H).
  rewrite E. now apply opener_solid.
Qed.

(** *** Dictionaries with distinct keys *)

Lemma existsb_str_eqb (k : str) (keys : list str) :
  existsb (str_eqb k) keys = true <-> In k keys.
Proof.
  rewrite existsb_exists. split.
  - intros (x & Hin & E). apply str_eqb_eq in E. now subst.
  - intros H. exists k. split; [exact H | apply str_eqb_refl].
Qed.

Lemma distinct_NoDup (keys : list str) : distinct keys = true <-> NoDup keys.
Proof.
  induction keys as [|k keys IH]; simpl.
  - split; [constructor | reflexivity].
  - rewrite andb_true_iff, negb_true_iff, IH. split.
    + intros [H1 H2]. constructor; [|exact H2].
      intros Hin. apply existsb_str_eqb in Hin. congruence.
    + intros H. inversion H as [|? ? Hnot Hnd]; subst. split; [|exact Hnd].
      destruct (existsb (str_eqb k) keys) eqn:E; [|reflexivity].
      apply existsb_str_eqb in E. contradiction.
Qed.

Lemma dict_set_fresh (k : str) (x : json) (d : list (str * json)) :
  ~ In k (map fst d) -> dict_set k x d = d ++ [(k, x)].
Proof.
  induction d as [|[k' x'] d IH]; simpl; [reflexivity|].
  intros Hnot. destruct (str_eqb k k') eqn:E.
  - apply str_eqb_eq in E. subst. tauto.
  - rewrite IH; tauto.
Qed.

Lemma dict_from (pairs acc : list (str * json)) :
  NoDup (map fst (acc ++ pairs)) ->
  fold_left (fun d kv => dict_set (fst kv) (snd kv) d) pairs acc = acc ++ pairs.
Proof.
  revert acc. induction pairs as [|[k x] pairs IH]; intros acc Hnd; simpl.
  - now rewrite app_nil_r.
  - rewrite dict_set_fresh.
    + rewrite IH; rewrite <- app_assoc; [reflexivity | exact Hnd].
    + rewrite map_app in Hnd. simpl in Hnd.
      apply NoDup_remove_2 in Hnd. intros Hin. apply Hnd.
      apply in_or_app. now left.
Qed.

Lemma dict_distinct (pairs : list (str * json)) :
  distinct (map fst pairs) = true -> dict pairs = pairs.
Proof.
  intros H. unfold dict. rewrite dict_from; [reflexivity|].
  now apply distinct_NoDup.
Qed.

(** *** Reading back what [encode] writes *)

Lemma scan_string (fuel : nat) (s rest : str) :
  scan_once (S fuel) (encode_basestring_ascii s ++ rest) = Some (JStr s, rest).
Proof.
  unfold encode_basestring_ascii. simpl. rewrite <- app_assoc.
  change ([dquote] ++ rest) with (dquote :: rest).
  now rewrite scanstring_encode.
Qed.

Lemma scan_array (fuel : nat) (s : str) (c : ascii) (s' : str) :
  skip_ws s = c :: s' -> opener c ->
  scan_once (S fuel) ("["%char :: s)
  = match array_items fuel (c :: s') with
    | Some (items, rest) => Some (JArr items, rest)
    | None => None
    end.
Proof.
  intros E Hc. simpl. rewrite E.
  now destruct Hc as [-> | [-> | ->]].
Qed.

Lemma scan_object (fuel : nat) (s body : str) :
  skip_ws s = dquote :: body ->
  scan_once (S fuel) ("{"%char :: s)
  = match object_pairs fuel body with
    | Some (pairs, rest) => Some (JObj (dict pairs), rest)
    | None => None
    end.
Proof. intros E. simpl. now rewrite E. Qed.

Lemma array_items_step (fuel : nat) (s : str) :
  array_items (S fuel) s
  = match scan_once fuel s with
    | None => None
    | Some (x, rest) =>
        match skip_ws rest with
        | [] => None
        | c :: r1 =>
            if Ascii.eqb c "]" then Some ([x], r1)
            else if Ascii.eqb c "," then
              match array_items fuel (skip_ws r1) with
              | Some (xs, r2) => Some (x :: xs, r2)
              | None => None
              end
            else None
        end
    end.
Proof. reflexivity. Qed.

Lemma join_cons2 (sep x y : str) (rest : list str) :
  join sep (x :: y :: rest) = x ++ sep ++ join sep (y :: rest).
Proof. reflexivity. Qed.

Lemma array_items_encode (level : nat) (rest : str) (items : list json) :
  items <> [] ->
  Forall reads_back items ->
  forallb distinct_keys items = true ->
  forall fuel,
    need_items items <= fuel ->
    array_items fuel
      (join (item_separator (S level)) (map (encode (S level)) items)
       ++ newline_indent level ++ "]"%char :: rest)
    = Some (items, rest).
Proof.
  intros Hne HIH. induction HIH as [|x items Hx HIH IHitems]; [easy|].
  intros Hd fuel Hfuel. simpl in Hd. apply andb_true_iff in Hd as [Hdx Hd].
  unfold need_items in Hfuel. simpl in Hfuel. fold (need_items items) in Hfuel.
  destruct fuel as [|fuel]; [lia|].
  rewrite array_items_step.
  destruct items as [|y items].
  - simpl map. simpl join.
    rewrite (Hx Hdx) by lia.
    rewrite skip_ws_newline_indent. reflexivity.
  - simpl map. rewrite join_cons2, <- !app_assoc.
    rewrite (Hx Hdx) by lia.
    unfold item_separator at 1.
    change ((","%char :: newline_indent (S level)) ++ ?s)
      with (","%char :: newline_indent (S level) ++ s).
    change (skip_ws (","%char :: ?s)) with (","%char :: s).
    cbv iota beta. change (Ascii.eqb "," "]") with false.
    change (Ascii.eqb "," ",") with true. cbv iota.
    rewrite skip_ws_newline_indent.
    rewrite skip_ws_solid.
    + change (encode (S level) y :: map (encode (S level)) items)
        with (map (encode (S level)) (y :: items)).
      rewrite IHitems; [reflexivity|easy|exact Hd|lia].
    + destruct items; simpl map; [simpl join | rewrite join_cons2];
        rewrite <- ?app_assoc; apply encode_solid.
Qed.

Lemma object_pairs_step (fuel : nat) (s : str) :
  object_pairs (S fuel) s
  = match scanstring s with
    | None => None
    | Some (k, rest) =>
        match skip_ws rest with
        | [] => None
        | c :: r1 =>
            if negb (Ascii.eqb c ":") then None
            else
              match scan_once fuel (skip_ws r1) with
              | None => None
              | Some (x, r2) =>
                  match skip_ws r2 with
                  | [] => None
                  | c2 :: r3 =>
                      if Ascii.eqb c2 "}" then Some ([(k, x)], r3)
                      else if Ascii.eqb c2 "," then
                        match skip_ws r3 with
                        | [] => None
                        | c3 :: r4 =>
                            if Ascii.eqb c3 dquote then
                              match object_pairs fuel r4 with
                              | Some (ps, r5) => Some ((k, x) :: ps, r5)
                              | None => None
                              end
                            else None
                        end
                      else None
                  end
              end
        end
    end.
Proof. reflexivity. Qed.

Lemma encode_member_text (level : nat) (k : str) (x : json) (tail : str) :
  encode_member level (k, x) ++ tail
  = dquote :: flat_map encode_char k
      ++ dquote :: ":"%char :: " "%char :: encode level x ++ tail.
Proof.
  unfold encode_member, encode_basestring_ascii. simpl.
  rewrite <- !app_assoc. reflexivity.
Qed.

Lemma object_pairs_member (fuel level : nat) (k : str) (x : json) (tail : str) :
  reads_back x -> distinct_keys x = true -> need x <= fuel ->
  object_pairs (S fuel)
    (flat_map encode_char k
     ++ dquote :: ":"%char :: " "%char :: encode level x ++ tail)
  = match skip_ws tail with
    | [] => None
    | c2 :: r3 =>
        if Ascii.eqb c2 "}" then Some ([(k, x)], r3)
        else if Ascii.eqb c2 "," then
          match skip_ws r3 with
          | [] => None
          | c3 :: r4 =>
              if Ascii.eqb c3 dquote then
                match object_pairs fuel r4 with
                | Some (ps, r5) => Some ((k, x) :: ps, r5)
                | None => None
                end
              else None
          end
        else None
    end.
Proof.
  intros Hx Hd Hfuel. rewrite object_pairs_step, scanstring_encode.
  change (skip_ws (":"%char :: " "%char :: ?s)) with (":"%char :: " "%char :: s).
  cbv iota beta. change (negb (Ascii.eqb ":" ":")) with false. cbv iota.
  change (skip_ws (" "%char :: ?s)) with (skip_ws s).
  rewrite skip_ws_solid by apply encode_solid.
  now rewrite (Hx Hd) by exact Hfuel.
Qed.

Lemma cons_inj (c : ascii) (a b : str) : c :: a = c :: b -> a = b.
Proof. now intros [= ->]. Qed.

Lemma object_pairs_encode (level : nat) (rest : str)
    (members : list (str * json)) :
  members <> [] ->
  Forall (fun kv => reads_back (snd kv)) members ->
  forallb (fun kv => distinct_keys (snd kv)) members = true ->
  forall fuel body,
    need_members members <= fuel ->
    join (item_separator (S level)) (map (encode_member (S level)) members)
    ++ newline_indent level ++ "}"%char :: rest
    = dquote :: body ->
    object_pairs fuel body = Some (members, rest).
Proof.
  intros Hne HIH. induction HIH as [|[k x] members Hx HIH IHmembers]; [easy|].
  intros Hd fuel body Hfuel Hbody.
  simpl in Hd, Hx. apply andb_true_iff in Hd as [Hdx Hd].
  unfold need_members in Hfuel. simpl in Hfuel.
  fold (need_members members) in Hfuel.
  destruct fuel as [|fuel]; [lia|].
  destruct members as [|m members].
  - cbn [map join] in Hbody.
    rewrite encode_member_text in Hbody. apply cons_inj in Hbody as <-.
    rewrite object_pairs_member by (auto; lia).
    rewrite skip_ws_newline_indent. reflexivity.
  - cbn [map] in Hbody. rewrite join_cons2, <- !app_assoc in Hbody.
    rewrite encode_member_text in Hbody. apply cons_inj in Hbody as <-.
    rewrite object_pairs_member by (auto; lia).
    unfold item_separator at 1.
    change ((","%char :: newline_indent (S level)) ++ ?s)
      with (","%char :: newline_indent (S level) ++ s).
    change (skip_ws (","%char :: ?s)) with (","%char :: s).
    cbv iota beta. change (Ascii.eqb "," "}") with false.
    change (Ascii.eqb "," ",") with true. cbv iota.
    rewrite skip_ws_newline_indent.
    change (encode_member (S level) m :: map (encode_member (S level)) members)
      with (map (encode_member (S level)) (m :: members)).
    destruct m as [k2 x2].
    assert (Hhead : exists body2,
               join (item_separator (S level))
                 (map (encode_member (S level)) ((k2, x2) :: members))
               ++ newline_indent level ++ "}"%char :: rest
               = dquote :: body2).
    { destruct members; cbn [map]; [cbn [join] | rewrite join_cons2];
        rewrite <- ?app_assoc, encode_member_text; eauto. }
    destruct Hhead as [body2 Hbody2]. rewrite Hbody2.
    change (skip_ws (dquote :: body2)) with (dquote :: body2).
    cbv iota beta. rewrite Ascii.eqb_refl.
    rewrite (IHmembers ltac:(easy) Hd fuel body2); [reflexivity|lia|exact Hbody2].
Qed.

Lemma encode_array (level : nat) (x : json) (items : list json) :
  encode level (JArr (x :: items))
  = "["%char :: newline_indent (S level)
    ++ join (item_separator (S level)) (map (encode (S level)) (x :: items))
    ++ newline_indent level ++ ["]"%char].
Proof. reflexivity. Qed.

Lemma encode_object (level : nat) (m : str * json) (members : list (str * json)) :
  encode level (JObj (m :: members))
  = "{"%char :: newline_indent (S level)
    ++ join (item_separator (S level))
         (map (encode_member (S level)) (m :: members))
    ++ newline_indent level ++ ["}"%char].
Proof. reflexivity. Qed.

(** Reading an encoding gives the value back and stops right after it. *)
Lemma scan_encode (v : json) : reads_back v.
Proof.
  induction v as [s|items HIH|members HIH] using json_induction;
    intros Hd level fuel rest Hfuel.
  - destruct fuel as [|fuel]; [simpl in Hfuel; lia|]. apply scan_string.
  - simpl in Hd. simpl in Hfuel. fold (need_items items) in Hfuel.
    destruct fuel as [|fuel]; [lia|].
    destruct items as [|x items]; [reflexivity|].
    rewrite encode_array.
    change (("["%char :: ?a) ++ rest) with ("["%char :: a ++ rest).
    rewrite <- !app_assoc.
    change (["]"%char] ++ rest) with ("]"%char :: rest).
    destruct (encode_opens (S level) x) as (c & s & E & Hc).
    assert (Hhead : exists s',
               join (item_separator (S level)) (map (encode (S level)) (x :: items))
               ++ newline_indent level ++ "]"%char :: rest = c :: s').
    { destruct items; cbn [map]; [cbn [join] | rewrite join_cons2];
        rewrite E; simpl; eauto. }
    destruct Hhead as [s' Hs'].
    rewrite (@scan_array fuel _ c s'); [| |exact Hc].
    + rewrite <- Hs', array_items_encode; [reflexivity|easy|exact HIH|exact Hd|lia].
    + rewrite skip_ws_newline_indent, Hs'.
      apply skip_ws_solid. now apply opener_solid.
  - simpl in Hd. apply andb_true_iff in Hd as [Hkeys Hd].
    simpl in Hfuel. fold (need_members members) in Hfuel.
    destruct fuel as [|fuel]; [lia|].
    destruct members as [|[k x] members]; [reflexivity|].
    rewrite encode_object.
    change (("{"%char :: ?a) ++ rest) with ("{"%char :: a ++ rest).
    rewrite <- !app_assoc.
    change (["}"%char] ++ rest) with ("}"%char :: rest).
    assert (Hhead : exists body,
               join (item_separator (S level))
                 (map (encode_member (S level)) ((k, x) :: members))
               ++ newline_indent level ++ "}"%char :: rest
               = dquote :: body).
    { destruct members; cbn [map]; [cbn [join] | rewrite join_cons2];
        rewrite <- ?app_assoc, encode_member_text; eauto. }
    destruct Hhead as [body Hbody].
    rewrite (@scan_object fuel _ body).
    + rewrite (@object_pairs_encode level rest ((k, x) :: members));
        [|easy|exact HIH|exact Hd|lia|exact Hbody].
      now rewrite dict_distinct.
    + now rewrite skip_ws_newline_indent, Hbody.
Qed.

(** *** The fuel [loads] gives is enough *)

Lemma need_items_le (level : nat) (items : list json) :
  Forall (fun x => forall level, need x <= length (encode level x)) items ->
  need_items items
  <= S (length (join (item_separator level) (map (encode level) items))).
Proof.
  induction 1 as [|x items Hx _ IHitems]; [simpl; lia|].
  unfold need_items. simpl fold_right. fold (need_items items).
  specialize (Hx level).
  destruct items as [|y items].
  - cbn [map join]. simpl. lia.
  - cbn [map]. rewrite join_cons2, !length_app.
    cbn [map] in IHitems.
    assert (1 <= length (item_separator level)) by (simpl; lia). lia.
Qed.

Lemma need_members_le (level : nat) (members : list (str * json)) :
  Forall (fun kv => forall level, need (snd kv) <= length (encode level (snd kv)))
         members ->
  need_members members
  <= S (length (join (item_separator level)
                  (map (encode_member level) members))).
Proof.
  induction 1 as [|[k x] members Hx _ IHm]; [simpl; lia|].
  unfold need_members. simpl fold_right. fold (need_members members).
  specialize (Hx level). cbn [snd] in Hx.
  assert (Hlen : need x <= length (encode_member level (k, x))).
  { unfold encode_member. rewrite !length_app. lia. }
  destruct members as [|m members].
  - cbn [map join]. change (need_members []) with 0. lia.
  - cbn [map]. rewrite join_cons2, !length_app.
    cbn [map] in IHm.
    assert (1 <= length (item_separator level)) by (simpl; lia). lia.
Qed.

Lemma newline_indent_length (level : nat) : 1 <= length (newline_indent level).
Proof. simpl. lia. Qed.

Lemma need_le_length (v : json) (level : nat) :
  need v <= length (encode level v).
Proof.
  revert level.
  induction v as [s|items HIH|members HIH] using json_induction; intros level.
  - simpl. lia.
  - destruct items as [|x items]; [simpl; lia|].
    change (need (JArr (x :: items))) with (S (need_items (x :: items))).
    rewrite encode_array.
    pose proof (need_items_le (S level) HIH) as H.
    pose proof (newline_indent_length (S level)).
    cbn [length]. rewrite !length_app. lia.
  - destruct members as [|m members]; [simpl; lia|].
    change (need (JObj (m :: members))) with (S (need_members (m :: members))).
    rewrite encode_object.
    pose proof (need_members_le (S level) HIH) as H.
    pose proof (newline_indent_length (S level)).
    cbn [length]. rewrite !length_app. lia.
Qed.

(** What [dumps] writes, [loads] reads back. *)
Lemma loads_dumps (v : json) :
  distinct_keys v = true -> loads (dumps v) = Some v.
Proof.
  intros Hd. unfold loads, dumps.
  rewrite skip_ws_solid.
  - rewrite <- (app_nil_r (encode 0 v)) at 2.
    rewrite (scan_encode v Hd); [reflexivity|].
    pose proof (need_le_length v 0). lia.
  - rewrite <- (app_nil_r (encode 0 v)). apply encode_solid.
Qed.

(** *** What [loads] reads has distinct keys *)

Lemma dict_set_keys (k : str) (x : json) (d : list (str * json)) :
  distinct (map fst d) = true -> distinct (map fst (dict_set k x d)) = true.
Proof.
  intros Hd. destruct (in_dec (list_eq_dec ascii_dec) k (map fst d)) as [Hin|Hnot].
  - assert (E : map fst (dict_set k x d) = map fst d); [|now rewrite E].
    clear Hd. induction d as [|[k' x'] d IHd]; simpl in *; [easy|].
    destruct (str_eqb k k') eqn:E; [reflexivity|]. simpl. f_equal.
    apply IHd. destruct Hin as [->|Hin]; [|exact Hin].
    now rewrite str_eqb_refl in E.
  - rewrite dict_set_fresh by exact Hnot. apply distinct_NoDup.
    rewrite map_app. simpl. apply distinct_NoDup in Hd.
    apply NoDup_app; [exact Hd|repeat constructor; easy|].
    intros a Ha [<-|[]]. contradiction.
Qed.

Lemma dict_set_values (P : json -> bool) (k : str) (x : json)
    (d : list (str * json)) :
  P x = true -> forallb (fun kv => P (snd kv)) d = true ->
  forallb (fun kv => P (snd kv)) (dict_set k x d) = true.
Proof.
  intros Hx. induction d as [|[k' x'] d IHd]; simpl; [now rewrite Hx|].
  rewrite andb_true_iff. intros [H1 H2].
  destruct (str_eqb k k'); simpl; rewrite ?Hx, ?H1, ?H2, ?IHd; auto.
Qed.

Lemma dict_ok (P : json -> bool) (pairs : list (str * json)) :
  forallb (fun kv => P (snd kv)) pairs = true ->
  distinct (map fst (dict pairs)) = true
  /\ forallb (fun kv => P (snd kv)) (dict pairs) = true.
Proof.
  unfold dict.
  assert (G : forall acc,
             distinct (map fst acc) = true ->
             forallb (fun kv => P (snd kv)) acc = true ->
             forallb (fun kv => P (snd kv)) pairs = true ->
             distinct (map fst (fold_left (fun d kv => dict_set (fst kv) (snd kv) d) pairs acc)) = true
             /\ forallb (fun kv => P (snd kv))
                  (fold_left (fun d kv => dict_set (fst kv) (snd kv) d) pairs acc) = true).
  { induction pairs as [|[k x] pairs IHp]; intros acc Ha Hv Hp; simpl; [auto|].
    simpl in Hp. apply andb_true_iff in Hp as [Hx Hp].
    apply IHp; [now apply dict_set_keys | now apply dict_set_values | exact Hp]. }
  intros H. now apply G.
Qed.

Lemma scan_once_step (fuel : nat) (c : ascii) (s1 : str) :
  scan_once (S fuel) (c :: s1)
  = if Ascii.eqb c dquote then
      match scanstring s1 with
      | Some (x, rest) => Some (JStr x, rest)
      | None => None
      end
    else if Ascii.eqb c "[" then
      match skip_ws s1 with
      | [] => None
      | c2 :: s2 =>
          if Ascii.eqb c2 "]" then Some (JArr [], s2)
          else
            match array_items fuel (c2 :: s2) with
            | Some (items, rest) => Some (JArr items, rest)
            | None => None
            end
      end
    else if Ascii.eqb c "{" then
      match skip_ws s1 with
      | [] => None
      | c2 :: s2 =>
          if Ascii.eqb c2 "}" then Some (JObj [], s2)
          else if Ascii.eqb c2 dquote then
            match object_pairs fuel s2 with
            | Some (pairs, rest) => Some (JObj (dict pairs), rest)
            | None => None
            end
          else None
      end
    else None.
Proof. reflexivity. Qed.

Ltac break_match H :=
  match type of H with
  | context [match ?x with _ => _ end] => destruct x eqn:?; try discriminate H
  end.

Lemma scan_distinct (fuel : nat) :
  (forall s v rest, scan_once fuel s = Some (v, rest) -> distinct_keys v = true)
  /\ (forall s items rest,
        array_items fuel s = Some (items, rest) ->
        forallb distinct_keys items = true)
  /\ (forall s pairs rest,
        object_pairs fuel s = Some (pairs, rest) ->
        forallb (fun kv => distinct_keys (snd kv)) pairs = true).
Proof.
  induction fuel as [|fuel (IHv & IHa & IHo)]; [repeat split; discriminate|].
  repeat split.
  - intros [|c s1] v rest H; [discriminate|].
    rewrite scan_once_step in H.
    repeat break_match H; injection H as <- <-; try reflexivity.
    + simpl. eapply IHa; eassumption.
    + simpl. apply andb_true_iff. eapply dict_ok, IHo; eassumption.
  - intros s items rest H. rewrite array_items_step in H.
    repeat break_match H; injection H as <- <-; simpl.
    + erewrite IHv by eassumption. reflexivity.
    + erewrite IHv, IHa by eassumption. reflexivity.
  - intros s pairs rest H. rewrite object_pairs_step in H.
    repeat break_match H; injection H as <- <-; simpl.
    + erewrite IHv by eassumption. reflexivity.
    + erewrite IHv, IHo by eassumption. reflexivity.
Qed.

Lemma loads_distinct (s : str) (v : json) :
  loads s = Some v -> distinct_keys v = true.
Proof.
  unfold loads. intros H. repeat break_match H. injection H as <-.
  eapply scan_distinct; eassumption.
Qed.

(** *** Fuel *)

Lemma skip_ws_length (s : str) : length (skip_ws s) <= length s.
Proof.
  induction s as [|c s IHs]; simpl; [lia|].
  destruct (is_ws c); simpl; lia.
Qed.

Lemma push_length (c : ascii) (r : option (str * str)) (x rest : str) :
  push c r = Some (x, rest) ->
  exists x', r = Some (x', rest).
Proof.
  destruct r as [[x' rest']|]; simpl; [|discriminate].
  intros [= <- <-]. eauto.
Qed.

Lemma scanstring_length (n : nat) :
  forall s x rest,
    length s <= n -> scanstring s = Some (x, rest) -> length rest < length s.
Proof.
  induction n as [|n IHn]; intros s x rest Hn H.
  - destruct s; [discriminate|simpl in Hn; lia].
  - destruct s as [|c s1]; [discriminate|].
    cbn [scanstring] in H.
    destruct (Ascii.eqb c dquote).
    { injection H as <- <-. simpl. lia. }
    destruct (Ascii.eqb c backslash).
    + destruct s1 as [|e s2]; [discriminate|].
      destruct (Ascii.eqb e "u").
      * destruct s2 as [|h1 [|h2 [|h3 [|h4 s3]]]]; try discriminate.
        destruct (hex4 h1 h2 h3 h4) as [m|]; [|discriminate].
        destruct (m <? 256); [|discriminate].
        apply push_length in H as [x' H].
        apply IHn in H; simpl in *; lia.
      * destruct (unescape e); [|discriminate].
        apply push_length in H as [x' H].
        apply IHn in H; simpl in *; lia.
    + destruct (code c <? 32); [discriminate|].
      apply push_length in H as [x' H].
      apply IHn in H; simpl in *; lia.
Qed.

Lemma scanstring_shorter (s x rest : str) :
  scanstring s = Some (x, rest) -> length rest < length s.
Proof. apply (@scanstring_length (length s)). lia. Qed.

Ltac lengths :=
  repeat match goal with
  | H : context [skip_ws ?s] |- _ =>
      lazymatch goal with
      | _ : length (skip_ws s) <= length s |- _ => fail
      | _ => pose proof (skip_ws_length s)
      end
  | H : scanstring ?s = Some (_, ?r) |- _ =>
      lazymatch goal with
      | _ : length r < length s |- _ => fail
      | _ => pose proof (scanstring_shorter _ H)
      end
  end.

(** A result found with some fuel is found with any fuel that is at least
    the number of characters read. *)
Lemma scan_fuel (fuel : nat) :
  (forall s v rest,
      scan_once fuel s = Some (v, rest) ->
      length rest < length s
      /\ forall fuel', length s - length rest <= fuel' ->
                       scan_once fuel' s = Some (v, rest))
  /\ (forall s items rest,
        array_items fuel s = Some (items, rest) ->
        length rest < length s
        /\ forall fuel', length s - length rest <= fuel' ->
                         array_items fuel' s = Some (items, rest))
  /\ (forall s pairs rest,
        object_pairs fuel s = Some (pairs, rest) ->
        length rest < length s
        /\ forall fuel', length s - length rest <= fuel' ->
                         object_pairs fuel' s = Some (pairs, rest)).
Proof.
  induction fuel as [|fuel (IHv & IHa & IHo)]; [repeat split; discriminate|].
  repeat split.
  - (* scan_once: length *)
    destruct s as [|c s1]; [discriminate|]. rewrite scan_once_step in H.
    repeat break_match H; injection H as <- <-; lengths;
      repeat match goal with
      | H : array_items fuel _ = Some _ |- _ => apply IHa in H as [? _]
      | H : object_pairs fuel _ = Some _ |- _ => apply IHo in H as [? _]
      end;
      repeat match goal with H : skip_ws _ = _ |- _ => rewrite H in * end;
      simpl in *; try lia.
  - destruct s as [|c s1]; [discriminate|]. rewrite scan_once_step in H.
    intros fuel' Hfuel'.
    repeat break_match H; injection H as <- <-; lengths;
      repeat match goal with
      | H : array_items fuel _ = Some _ |- _ => apply IHa in H as [? ?]
      | H : object_pairs fuel _ = Some _ |- _ => apply IHo in H as [? ?]
      end;
      (destruct fuel' as [|fuel'];
       [repeat match goal with H : skip_ws _ = _ |- _ => rewrite H in * end;
        cbn [length] in *; lia|]);
      rewrite scan_once_step;
      repeat match goal with
      | H : Ascii.eqb _ _ = _ |- _ => rewrite H
      | H : skip_ws _ = _ |- _ => rewrite H in *
      | H : scanstring _ = _ |- _ => rewrite H
      end;
      try reflexivity;
      match goal with
      | H : forall f, _ -> array_items f _ = _ |- _ => rewrite H; [reflexivity|cbn [length] in *; lia]
      | H : forall f, _ -> object_pairs f _ = _ |- _ => rewrite H; [reflexivity|cbn [length] in *; lia]
      end.

  - rewrite array_items_step in H.
    repeat break_match H; injection H as <- <-; lengths;
      repeat match goal with
      | H : scan_once fuel _ = Some _ |- _ => apply IHv in H as [? _]
      | H : array_items fuel _ = Some _ |- _ => apply IHa in H as [? _]
      end;
      repeat match goal with H : skip_ws _ = _ :: _ |- _ => rewrite H in * end;
      cbn [length] in *; lia.
  - rewrite array_items_step in H. intros fuel' Hfuel'.
    repeat break_match H; injection H as <- <-; lengths;
      repeat match goal with
      | H : scan_once fuel _ = Some _ |- _ => apply IHv in H as [? ?]
      | H : array_items fuel _ = Some _ |- _ => apply IHa in H as [? ?]
      end;
      (destruct fuel' as [|fuel'];
       [repeat match goal with H : skip_ws _ = _ :: _ |- _ => rewrite H in * end;
        cbn [length] in *; lia|]);
      rewrite array_items_step;
      match goal with
      | H : forall f, _ -> scan_once f _ = _ |- _ =>
          rewrite H by (repeat match goal with H : skip_ws _ = _ :: _ |- _ => rewrite H in * end; cbn [length] in *; lia)
      end;
      repeat match goal with
      | H : skip_ws _ = _ :: _ |- _ => rewrite H
      | H : Ascii.eqb _ _ = _ |- _ => rewrite H
      end;
      try reflexivity;
      match goal with
      | H : forall f, _ -> array_items f _ = _ |- _ =>
          rewrite H; [reflexivity|
            repeat match goal with H : skip_ws _ = _ :: _ |- _ => rewrite H in * end; cbn [length] in *; lia]
      end.
  - rewrite object_pairs_step in H.
    repeat break_match H; injection H as <- <-; lengths;
      repeat match goal with
      | H : scan_once fuel _ = Some _ |- _ => apply IHv in H as [? _]
      | H : object_pairs fuel _ = Some _ |- _ => apply IHo in H as [? _]
      end;
      repeat match goal with H : skip_ws _ = _ :: _ |- _ => rewrite H in * end;
      cbn [length] in *; lia.
  - rewrite object_pairs_step in H. intros fuel' Hfuel'.
    repeat break_match H; injection H as <- <-; lengths;
      repeat match goal with
      | H : scan_once fuel _ = Some _ |- _ => apply IHv in H as [? ?]
      | H : object_pairs fuel _ = Some _ |- _ => apply IHo in H as [? ?]
      end;
      (destruct fuel' as [|fuel'];
       [repeat match goal with H : skip_ws _ = _ :: _ |- _ => rewrite H in * end;
        cbn [length] in *; lia|]);
      rewrite object_pairs_step;
      repeat match goal with
      | H : scanstring _ = _ |- _ => rewrite H
      | H : skip_ws _ = _ :: _ |- _ => rewrite H
      | H : Ascii.eqb _ _ = _ |- _ => rewrite H
      | H : negb _ = _ |- _ => rewrite H
      end;
      match goal with
      | H : forall f, _ -> scan_once f _ = _ |- _ =>
          rewrite H by (repeat match goal with H : skip_ws _ = _ :: _ |- _ => rewrite H in * end; cbn [length] in *; lia)
      end;
      repeat match goal with
      | H : skip_ws _ = _ :: _ |- _ => rewrite H
      | H : Ascii.eqb _ _ = _ |- _ => rewrite H
      end;
      try reflexivity;
      match goal with
      | H : forall f, _ -> object_pairs f _ = _ |- _ =>
          rewrite H; [reflexivity|
            repeat match goal with H : skip_ws _ = _ :: _ |- _ => rewrite H in * end; cbn [length] in *; lia]
      end.
Qed.

(** The fuel [loads] gives never runs out: a value found with any fuel is
    the value [loads] returns. *)
Lemma loads_fuel (s : str) (fuel : nat) (v : json) (rest : str) :
  scan_once fuel (skip_ws s) = Some (v, rest) ->
  skip_ws rest = [] ->
  loads s = Some v.
Proof.
  intros H Hrest. unfold loads.
  destruct (scan_fuel fuel) as (Hv & _).
  destruct (Hv _ _ _ H) as [_ Hany].
  rewrite Hany, Hrest; [reflexivity|].
  pose proof (skip_ws_length s). lia.
Qed.


End JsonFacts.

(** ** The store *)

Module StoreFacts.

Import App Store Notions JsonFacts.

Lemma load_insights_distinct (f : file) (v : json) :
  load_insights f = Ok v -> distinct_keys v = true.
Proof.
  unfold load_insights. destruct f as [content|].
  - destruct (loads content) as [x|] eqn:E; [|discriminate].
    intros [= <-]. exact (loads_distinct _ E).
  - now intros [= <-].
Qed.

Lemma entry_distinct_keys
    (timestamp article insight research why_matters : str)
    (tags : list str) (sentiment : str) :
  distinct_keys
    (entry timestamp article insight research why_matters tags sentiment)
  = true.
Proof.
  unfold entry. cbn. rewrite !andb_true_r.
  induction tags as [|t tags IH]; [reflexivity | exact IH].
Qed.

Lemma load_after_dumps (items : list json) :
  forallb distinct_keys items = true ->
  load_insights (Some (dumps (JArr items))) = Ok (JArr items).
Proof.
  intros Hd. unfold load_insights. now rewrite loads_dumps.
Qed.

(** Appending any value with distinct keys to a store that loads. *)
Lemma save_then_load (f : file) (prior : list json) (e : json) :
  load_insights f = Ok (JArr prior) ->
  distinct_keys e = true ->
  save_insight e f = Ok (Some (dumps (JArr (prior ++ [e]))))
  /\ load_insights (Some (dumps (JArr (prior ++ [e]))))
     = Ok (JArr (prior ++ [e])).
Proof.
  intros Hload He. split.
  - unfold save_insight. now rewrite Hload.
  - apply load_after_dumps. rewrite forallb_app. simpl. rewrite He.
    apply load_insights_distinct in Hload. simpl in Hload.
    now rewrite Hload.
Qed.

(** The store keeps what was appended to it, in the order of the
    appends. *)
Lemma save_all_then_load (entries : list json) :
  forallb distinct_keys entries = true ->
  forall (f : file) (prior : list json),
    load_insights f = Ok (JArr prior) ->
    exists f',
      save_all entries f = Ok f'
      /\ load_insights f' = Ok (JArr (prior ++ entries)).
Proof.
  induction entries as [|e entries IHe]; intros Hd f prior Hload.
  - exists f. now rewrite app_nil_r.
  - simpl in Hd. apply andb_true_iff in Hd as [He Hd].
    destruct (save_then_load f e Hload He) as [Hsave Hback].
    destruct (IHe Hd _ _ Hback) as (f' & Hall & Hload').
    exists f'. simpl. rewrite Hsave. split; [exact Hall|].
    now rewrite <- app_assoc in Hload'.
Qed.



End StoreFacts.

(** ** Stripping *)

Module StripFacts.

Import Notions.

Lemma lstrip_split (s : str) :
  exists pre, s = pre ++ lstrip s /\ blank pre = true.
Proof.
  induction s as [|c s (pre & E & Hpre)]; [now exists []|].
  simpl. destruct (is_space c) eqn:Hc.
  - exists (c :: pre). simpl. rewrite Hc. split; [now f_equal | exact Hpre].
  - now exists [].
Qed.

Lemma lstrip_head (s : str) (c : ascii) (t : str) :
  lstrip s = c :: t -> is_space c = false.
Proof.
  induction s as [|x s IH]; [discriminate|]. simpl.
  destruct (is_space x) eqn:Hx; [exact IH|]. now intros [= <- _].
Qed.

Lemma lstrip_fixed (c : ascii) (s : str) :
  is_space c = false -> lstrip (c :: s) = c :: s.
Proof. intros H. simpl. now rewrite H. Qed.

Lemma lstrip_blank (s : str) : blank s = true <-> lstrip s = [].
Proof.
  induction s as [|c s IH]; [easy|]. simpl.
  destruct (is_space c); simpl; [exact IH|]. split; discriminate.
Qed.

Lemma blank_app (a b : str) : blank (a ++ b) = blank a && blank b.
Proof. apply forallb_app. Qed.

Lemma blank_rev (s : str) : blank (rev s) = blank s.
Proof.
  induction s as [|c s IH]; [reflexivity|]. simpl.
  rewrite blank_app, IH. simpl. rewrite andb_true_r. apply andb_comm.
Qed.

Lemma rstrip_split (s : str) :
  exists post, s = rstrip s ++ post /\ blank post = true.
Proof.
  destruct (lstrip_split (rev s)) as (pre & E & Hpre).
  exists (rev pre). unfold rstrip. split.
  - rewrite <- rev_app_distr, <- E. now rewrite rev_involutive.
  - now rewrite blank_rev.
Qed.

Lemma rstrip_last (s : str) (c : ascii) (t : str) :
  rstrip s = t ++ [c] -> is_space c = false.
Proof.
  unfold rstrip. intros H. apply (f_equal (@rev ascii)) in H.
  rewrite rev_involutive, rev_app_distr in H. simpl in H.
  exact (@lstrip_head _ _ _ H).
Qed.

Lemma rstrip_head (c : ascii) (s : str) :
  is_space c = false -> exists t, rstrip (c :: s) = c :: t.
Proof.
  intros Hc. destruct (rstrip_split (c :: s)) as (post & E & Hpost).
  destruct (rstrip (c :: s)) as [|x t].
  - simpl in E. subst post. simpl in Hpost. now rewrite Hc in Hpost.
  - injection E as <- _. now exists t.
Qed.

Lemma rstrip_fixed (s : str) (c : ascii) :
  is_space c = false -> rstrip (s ++ [c]) = s ++ [c].
Proof.
  intros H. unfold rstrip. rewrite rev_app_distr. simpl. rewrite H.
  change (c :: rev s) with ([c] ++ rev s).
  now rewrite rev_app_distr, rev_involutive.
Qed.

(** What [strip] returns has no white space at either end. *)
Lemma strip_edges (s : str) : edge_space (strip s) = false.
Proof.
  unfold strip. destruct (lstrip s) as [|c t] eqn:E; [reflexivity|].
  pose proof (@lstrip_head _ _ _ E) as Hc.
  destruct (@rstrip_head c t Hc) as [u Hu]. rewrite Hu. unfold edge_space.
  rewrite Hc, orb_false_l.
  destruct (@exists_last _ (c :: u)) as (v & d & Ev); [discriminate|].
  rewrite Ev, last_last.
  rewrite Ev in Hu. exact (@rstrip_last _ _ _ Hu).
Qed.

Lemma strip_fixed (s : str) : edge_space s = false -> strip s = s.
Proof.
  destruct s as [|c s]; [reflexivity|]. unfold edge_space. intros H.
  apply orb_false_iff in H as [Hc Hl]. unfold strip.
  rewrite lstrip_fixed by exact Hc.
  destruct (@exists_last _ (c :: s)) as (v & d & Ev); [discriminate|].
  rewrite Ev in *. rewrite last_last in Hl. now apply rstrip_fixed.
Qed.

Lemma strip_strip (s : str) : strip (strip s) = strip s.
Proof. apply strip_fixed, strip_edges. Qed.

Lemma strip_blank (s : str) : blank s = true <-> strip s = [].
Proof.
  unfold strip. split.
  - intros H. apply lstrip_blank in H. now rewrite H.
  - intros H. destruct (lstrip_split s) as (pre & E & Hpre).
    destruct (rstrip_split (lstrip s)) as (post & E' & Hpost).
    rewrite H in E'. simpl in E'. rewrite E, blank_app, Hpre, E'. exact Hpost.
Qed.

(** The characters of a stripped string are characters of the string. *)
Lemma strip_incl (s : str) (c : ascii) : In c (strip s) -> In c s.
Proof.
  intros H. unfold strip in H.
  destruct (lstrip_split s) as (pre & E & _).
  destruct (rstrip_split (lstrip s)) as (post & E' & _).
  rewrite E, E'. apply in_or_app. right. apply in_or_app. now left.
Qed.

End StripFacts.

(** ** The answer of the endpoint *)

Module ResponseFacts.

Import Notions.
Import Response.

Ltac dead :=
  try (cbn [and_then subscript subscript_0 strip_method]; discriminate).

(** X1.  Lines 46-48 return a string exactly when the reply has a status
    code outside 400-599 and a JSON body that is a dictionary whose
    "choices" is a list starting with a dictionary, whose "message" is a
    dictionary, whose "content" is a string; the string returned is that
    content, stripped.  Other keys, and the choices after the first, play
    no part. *)
Theorem returned_iff_well_formed (r : reply) (s : str) :
  returned r = Got s
  <-> exists status_code members first others message content,
        r = Answer status_code (Some (Object members))
        /\ between 400 599 status_code = false
        /\ lookup (lit "choices") members
           = Some (Array (Object first :: others))
        /\ lookup (lit "message") first = Some (Object message)
        /\ lookup (lit "content") message = Some (Text content)
        /\ s = strip content.
Proof.
  split.
  - destruct r as [|status_code [v|]]; [discriminate| |].
    + unfold returned, raise_for_status.
      destruct (between 400 599 status_code) eqn:Hs; [discriminate|].
      cbn [and_then json_body]. unfold first_content.
      destruct v as [| | | | |members]; dead.
      cbn [subscript].
      destruct (lookup (lit "choices") members) as [choices|] eqn:Hc;
        [|dead].
      destruct choices as [| | |[|c t]|[|first others]|]; dead.
      destruct first as [| | | | |first]; dead.
      cbn [and_then subscript_0 subscript].
      destruct (lookup (lit "message") first) as [message|] eqn:Hm;
        [|dead].
      destruct message as [| | | | |message]; dead.
      cbn [and_then subscript].
      destruct (lookup (lit "content") message) as [content|] eqn:Hk;
        [|dead].
      destruct content as [| | |content| |]; dead.
      cbn [and_then strip_method]. intros [= <-].
      exists status_code, members, first, others, message, content.
      repeat split; assumption.
    + unfold returned, raise_for_status.
      destruct (between 400 599 status_code); discriminate.
  - intros (status_code & members & first & others & message & content
            & -> & Hs & Hc & Hm & Hk & ->).
    unfold returned, raise_for_status. rewrite Hs.
    cbn [and_then json_body]. unfold first_content.
    cbn [subscript]. rewrite Hc. cbn [and_then subscript_0 subscript].
    rewrite Hm. cbn [and_then subscript]. rewrite Hk. reflexivity.
Qed.

(** A completion as the endpoint sends it is read as its content,
    stripped. *)
Lemma returned_completion (content : str) :
  returned (Answer 200 (Some (completion content))) = Got (strip content).
Proof. reflexivity. Qed.

(** X2.  How lines 46-48 fail.  A status code in 400-599 raises
    [HTTPError] whatever the body, a well-formed completion included.
    With another status code: a body that is not JSON raises at
    [response.json()]; a dictionary without "choices" raises [KeyError];
    an empty list of choices raises [IndexError]; a content that is [None]
    raises [AttributeError] at [strip]; a body that is a list raises
    [TypeError]. *)
Theorem returned_failures
    (status_code : nat) (body : option value)
    (members first message : list (str * value)) (others : list value) :
  (between 400 599 status_code = true ->
   returned (Answer status_code body) = Fail HTTPError)
  /\ (between 400 599 status_code = false ->
      returned (Answer status_code None) = Fail BodyError
      /\ (lookup (lit "choices") members = None ->
          returned (Answer status_code (Some (Object members)))
          = Fail KeyError)
      /\ (lookup (lit "choices") members = Some (Array []) ->
          returned (Answer status_code (Some (Object members)))
          = Fail IndexError)
      /\ (lookup (lit "choices") members
          = Some (Array (Object first :: others)) ->
          lookup (lit "message") first = Some (Object message) ->
          lookup (lit "content") message = Some Null ->
          returned (Answer status_code (Some (Object members)))
          = Fail AttributeError)
      /\ returned (Answer status_code (Some (Array (Object members :: others))))
         = Fail TypeError).
Proof.
  split; [|intros Hs; repeat split].
  - intros Hs. unfold returned, raise_for_status. now rewrite Hs.
  - unfold returned, raise_for_status. now rewrite Hs.
  - intros H. unfold returned, raise_for_status. rewrite Hs.
    cbn [and_then json_body]. unfold first_content. cbn [subscript].
    now rewrite H.
  - intros H. unfold returned, raise_for_status. rewrite Hs.
    cbn [and_then json_body]. unfold first_content. cbn [subscript].
    now rewrite H.
  - intros Hc Hm Hk. unfold returned, raise_for_status. rewrite Hs.
    cbn [and_then json_body]. unfold first_content. cbn [subscript].
    rewrite Hc. cbn [and_then subscript_0 subscript].
    rewrite Hm. cbn [and_then subscript]. now rewrite Hk.
  - unfold returned, raise_for_status. now rewrite Hs.
Qed.

(** An error status hides a well-formed completion; a completion without
    choices has no first choice. *)
Lemma returned_examples :
  returned (Answer 429 (Some (completion (lit "Neutral")))) = Fail HTTPError
  /\ returned (Answer 200 (Some (Object [(lit "choices", Array [])])))
     = Fail IndexError
  /\ returned (Answer 200 (Some (Object [(lit "error", Text (lit "busy"))])))
     = Fail KeyError.
Proof. repeat split. Qed.

End ResponseFacts.

(** ** Tags *)

Module TagFacts.

Import App Notions PyFacts StripFacts.

Lemma split_no_sep (sep : ascii) (s : str) :
  Forall (fun piece => ~ In sep piece) (split sep s).
Proof.
  induction s as [|c s IH]; [repeat constructor; easy|].
  rewrite split_cons. destruct (Ascii.eqb_spec c sep) as [->|Hc].
  - constructor; [easy | exact IH].
  - destruct (split sep s) as [|piece others]; [repeat constructor|].
    + simpl. intros [H|[]]. now apply Hc.
    + inversion IH as [|? ? Hp Ho]; subst. constructor; [|exact Ho].
      simpl. intros [H|H]; [now apply Hc | now apply Hp].
Qed.

Lemma split_whole (sep : ascii) (s : str) : ~ In sep s -> split sep s = [s].
Proof.
  induction s as [|c s IH]; [reflexivity|]. intros H. rewrite split_cons.
  destruct (Ascii.eqb_spec c sep) as [->|Hc]; [exfalso; apply H; now left|].
  rewrite IH; [reflexivity|]. intros Hin. apply H. now right.
Qed.

Lemma blank_no_comma (s : str) : blank s = true -> ~ In ","%char s.
Proof.
  intros H Hin. unfold blank in H. rewrite forallb_forall in H.
  now apply H in Hin.
Qed.

(** X3.  No tag holds a comma, and no tag starts or ends with white space.
    A blank answer gives the one tag that is the empty string, and an
    answer that ends with a comma gives the empty string as its last
    tag. *)
Theorem tags_are_trimmed_pieces (tags_response : str) :
  Forall (fun tag => edge_space tag = false /\ ~ In ","%char tag)
         (tags_of tags_response)
  /\ (blank tags_response = true -> tags_of tags_response = [[]])
  /\ tags_of (tags_response ++ lit ",") = tags_of tags_response ++ [[]].
Proof.
  unfold tags_of. split; [|split].
  - apply Forall_map. eapply Forall_impl; [|apply split_no_sep].
    intros piece Hp. split; [apply strip_edges|].
    intros Hin. apply Hp. now apply strip_incl.
  - intros Hb. rewrite split_whole by now apply blank_no_comma.
    simpl. f_equal. now apply strip_blank.
  - change (lit ",") with (","%char :: []). now rewrite split_app, map_app.
Qed.

End TagFacts.

(** ** Highlighting, further *)

Module HighlightLaws.

Import Notions Re PyFacts HighlightFacts.

(** *** Lists of keywords *)

Lemma highlight_cons (text k : str) (rest : list str) :
  highlight_keywords text (k :: rest)
  = match highlight_keywords text [k] with
    | Ok text' => highlight_keywords text' rest
    | Raise e => Raise e
    end.
Proof. simpl. now destruct (Re.sub _ _ _). Qed.

(** X4.  Highlighting with one list of keywords followed by another is
    highlighting with the first list and then, on the result, with the
    second; when the first list raises, so does the whole.  This is the
    call of line 162, where the tags come first and the fixed keywords
    after them. *)
Theorem highlight_in_sequence (text : str) (first second : list str) :
  highlight_keywords text (first ++ second)
  = match highlight_keywords text first with
    | Ok text' => highlight_keywords text' second
    | Raise e => Raise e
    end.
Proof.
  revert text. induction first as [|k first IH]; intros text; [reflexivity|].
  simpl. destruct (Re.sub _ _ _); [apply IH | reflexivity].
Qed.

Lemma highlight_raises (keywords : list str) :
  forall text e,
    highlight_keywords text keywords = Raise e ->
    e = TemplateError
    /\ exists k, In k keywords /\ parse_template (wrapped k) = None.
Proof.
  induction keywords as [|k rest IH]; intros text e H; [discriminate|].
  simpl in H. unfold Re.sub in H.
  destruct (parse_template (wrapped k)) as [repl|] eqn:E.
  - destruct (IH _ _ H) as (-> & k' & Hin & Hk').
    split; [reflexivity|]. exists k'. simpl. auto.
  - injection H as <-. split; [reflexivity|]. exists k. simpl. auto.
Qed.

(** A keyword whose template is refused makes the whole call raise,
    whatever the text and the other keywords. *)
Lemma highlight_refused (k : str) (keywords : list str) :
  In k keywords -> parse_template (wrapped k) = None ->
  forall text, highlight_keywords text keywords = Raise TemplateError.
Proof.
  intros Hin Hk. induction keywords as [|k0 rest IH]; [easy|]. intros text.
  simpl. unfold Re.sub.
  destruct (parse_template (wrapped k0)) as [repl|] eqn:E; [|reflexivity].
  destruct Hin as [->|Hin]; [congruence|]. now apply IH.
Qed.

Lemma highlight_plain (keywords : list str) :
  forallb no_backslash keywords = true ->
  forall text, exists out, highlight_keywords text keywords = Ok out.
Proof.
  induction keywords as [|k rest IH]; intros H text; [now exists text|].
  simpl in H. apply andb_true_iff in H as [Hk Hrest].
  simpl. unfold Re.sub. rewrite wrapped_template by exact Hk. now apply IH.
Qed.

(** X5.  Whether [highlight_keywords] raises depends on the keywords
    alone: it raises, and then the error of a refused template, exactly
    when one of the keywords, wrapped in stars, is a replacement template
    that [re] refuses; a list that raises on one text raises on every
    text; and keywords without a backslash never raise. *)
Theorem highlight_raises_by_keywords_only (text : str) (keywords : list str) :
  (forall e,
     highlight_keywords text keywords = Raise e
     <-> e = TemplateError
         /\ exists k, In k keywords /\ parse_template (wrapped k) = None)
  /\ (forall other,
        highlight_keywords text keywords = Raise TemplateError ->
        highlight_keywords other keywords = Raise TemplateError)
  /\ (forallb no_backslash keywords = true ->
      exists out, highlight_keywords text keywords = Ok out).
Proof.
  split; [|split].
  - intros e. split; [apply highlight_raises|].
    intros (-> & k & Hin & Hk). now apply (highlight_refused k).
  - intros other H. apply highlight_raises in H as (_ & k & Hin & Hk).
    now apply (highlight_refused k).
  - intros H. now apply highlight_plain.
Qed.

(** The fixed keywords of line 161 never raise. *)
Lemma fixed_keywords_plain (text : str) :
  exists out, highlight_keywords text App.fixed_keywords = Ok out.
Proof. now apply highlight_plain. Qed.

(** *** One keyword that starts and ends with a word character *)

Lemma seen_no_word (prev : option ascii) (pre : str) :
  word_side prev = false -> no_word pre = true ->
  word_side (seen prev pre) = false.
Proof.
  revert prev. induction pre as [|c pre IH]; intros prev Hprev H; [exact Hprev|].
  simpl in H. apply andb_true_iff in H as [Hc H]. apply negb_true_iff in Hc.
  unfold seen. simpl. now apply IH.
Qed.

Lemma seen_word (prev : option ascii) (w : str) :
  word_side prev = true -> forallb is_word w = true ->
  word_side (seen prev w) = true.
Proof.
  revert prev. induction w as [|c w IH]; intros prev Hprev H; [exact Hprev|].
  simpl in H. apply andb_true_iff in H as [Hc H].
  unfold seen. simpl. now apply IH.
Qed.

Lemma head_no_word (post : str) :
  no_word post = true -> word_side (hd_error post) = false.
Proof.
  destruct post as [|c post]; [reflexivity|]. simpl.
  intros H. apply andb_true_iff in H as [Hc _]. now apply negb_true_iff.
Qed.

Section Keyword.

Variable k : str.
Hypothesis k_ends : word_ends k = true.
Hypothesis k_plain : no_backslash k = true.

Lemma stands_not_word (prev : option ascii) (c : ascii) (s : str) :
  is_word c = false -> stands_here k prev (c :: s) = false.
Proof.
  intros Hc. destruct (@first_is_word k k_ends k_plain) as (x & k' & -> & Hx).
  unfold stands_here. cbn [length firstn same_letters].
  destruct (Ascii.eqb (lower c) (lower x)) eqn:E.
  - apply same_case_is_word in E. congruence.
  - now rewrite andb_false_r.
Qed.

(** Characters that are no word characters are copied. *)
Lemma scan_no_word (pre s : str) (prev : option ascii) :
  no_word pre = true ->
  scan_for k prev (pre ++ s) = pre ++ scan_for k (seen prev pre) s.
Proof.
  revert prev. induction pre as [|c pre IH]; intros prev H; [reflexivity|].
  simpl in H. apply andb_true_iff in H as [Hc H]. apply negb_true_iff in Hc.
  change ((c :: pre) ++ s) with (c :: pre ++ s).
  rewrite (@out_copy k k_ends) by now apply stands_not_word.
  now rewrite IH.
Qed.

Lemma scan_alone (pre mid post : str) (prev : option ascii) :
  word_side prev = false ->
  no_word pre = true -> no_word post = true -> same_letters k mid = true ->
  scan_for k prev (pre ++ mid ++ post) = pre ++ wrapped k ++ post.
Proof.
  intros Hprev Hpre Hpost Hsame.
  rewrite scan_no_word by exact Hpre.
  assert (Hst : stands_here k (seen prev pre) (mid ++ post) = true).
  { rewrite stands_here_app by exact Hsame.
    now rewrite seen_no_word, head_no_word. }
  rewrite (@out_match k k_ends k_plain _ _ _ Hsame Hst).
  rewrite <- (app_nil_r post) at 1. rewrite scan_no_word by exact Hpost.
  now rewrite (@out_nil k k_ends k_plain), app_nil_r.
Qed.

End Keyword.

(** X6.  The wrapped text takes the spelling of the keyword, not the one
    of the text: when a keyword that starts and ends with a word character
    and holds no backslash is read, in any case, between two stretches
    without word characters, the result is the first stretch, the keyword
    itself between stars, and the second stretch. *)
Theorem highlight_takes_keyword_spelling (pre mid post k : str) :
  word_ends k = true -> no_backslash k = true ->
  same_letters k mid = true ->
  no_word pre = true -> no_word post = true ->
  highlight_keywords (pre ++ mid ++ post) [k] = Ok (pre ++ wrapped k ++ post).
Proof.
  intros Hends Hplain Hsame Hpre Hpost.
  rewrite highlight_one by exact Hplain.
  now rewrite scan_alone.
Qed.

Lemma highlight_takes_keyword_spelling_witness :
  word_ends (lit "inflation") = true
  /\ no_backslash (lit "inflation") = true
  /\ same_letters (lit "inflation") (lit "INFLATION") = true
  /\ no_word (lit "(") = true
  /\ no_word (lit ")!") = true
  /\ highlight_keywords (lit "(" ++ lit "INFLATION" ++ lit ")!")
       [lit "inflation"]
     = Ok (lit "(" ++ wrapped (lit "inflation") ++ lit ")!").
Proof.
  repeat (split; [reflexivity|]).
  apply (@highlight_takes_keyword_spelling (lit "(") (lit "INFLATION")
           (lit ")!") (lit "inflation")); reflexivity.
Defined.

(** X7.  A keyword that comes twice, up to case, wraps twice: on a text
    that reads the keyword, two keywords of word characters that read each
    other up to case leave the second one between four stars on each
    side.  So it is with a tag "Inflation" and the fixed keyword
    "inflation". *)
Theorem highlight_twice_wraps_twice (mid k1 k2 : str) :
  k2 <> [] -> forallb is_word k2 = true ->
  same_letters k2 k1 = true -> same_letters k1 mid = true ->
  highlight_keywords mid [k1; k2] = Ok (lit "****" ++ k2 ++ lit "****").
Proof.
  intros Hne2 Hw2 Hs2 Hs1.
  pose proof (same_letters_word _ _ Hs2 Hw2) as Hw1.
  assert (Hne1 : k1 <> []).
  { apply same_letters_length in Hs2. destruct k1, k2; easy. }
  pose proof (word_ends_of_word Hne1 Hw1) as He1.
  pose proof (word_ends_of_word Hne2 Hw2) as He2.
  pose proof (word_no_backslash _ Hw1) as Hp1.
  pose proof (word_no_backslash _ Hw2) as Hp2.
  pose proof (@scan_alone k1 He1 Hp1 [] mid [] None eq_refl eq_refl eq_refl Hs1)
    as H1.
  pose proof (@scan_alone k2 He2 Hp2 (lit "**") k1 (lit "**") None
                eq_refl eq_refl eq_refl Hs2) as H2.
  rewrite app_nil_r in H1. cbn [app] in H1. rewrite app_nil_r in H1.
  rewrite highlight_cons, (@highlight_one k1 Hp1), H1.
  rewrite (@highlight_one k2 Hp2). unfold wrapped at 1. rewrite H2.
  unfold wrapped. f_equal. cbn [lit list_ascii_of_string app].
  now rewrite <- !app_assoc.
Qed.

Lemma highlight_twice_wraps_twice_witness :
  lit "inflation" <> []
  /\ forallb is_word (lit "inflation") = true
  /\ same_letters (lit "inflation") (lit "Inflation") = true
  /\ same_letters (lit "Inflation") (lit "INFLATION") = true
  /\ highlight_keywords (lit "INFLATION") [lit "Inflation"; lit "inflation"]
     = Ok (lit "****inflation****").
Proof.
  split; [discriminate|]. repeat (split; [reflexivity|]).
  apply (@highlight_twice_wraps_twice (lit "INFLATION") (lit "Inflation")
           (lit "inflation")); [discriminate | reflexivity..].
Defined.

(** *** Lengths *)

Lemma wrapped_length (k : str) : length (wrapped k) = length k + 4.
Proof. unfold wrapped. rewrite !length_app. simpl. lia. Qed.

Lemma scan_length (k : str) :
  word_ends k = true -> no_backslash k = true -> forallb is_word k = true ->
  forall n s prev,
    length s <= n ->
    length (scan_for k prev s)
    = length s + 4 * count_standalone_from k prev s.
Proof.
  intros He Hp Hw. pose proof (@keyword_not_empty k He Hp) as Hne.
  induction n as [|n IHn]; intros s prev Hlen.
  - destruct s; [|simpl in Hlen; lia].
    rewrite out_nil by assumption. simpl.
    now rewrite stands_here_nil by assumption.
  - destruct s as [|c s].
    { rewrite out_nil by assumption. simpl.
      now rewrite stands_here_nil by assumption. }
    destruct (stands_here k prev (c :: s)) eqn:Hst.
    + destruct (@stands_here_split _ _ _ Hst) as (mid & rest & E & Hsame & _).
      rewrite E in *.
      rewrite out_match, count_standalone_match by assumption.
      pose proof (same_letters_length _ _ Hsame) as Hmid.
      rewrite !length_app, wrapped_length, IHn.
      * lia.
      * rewrite length_app in Hlen. destruct k; [easy|]. simpl in *. lia.
    + rewrite out_copy by assumption. cbn [count_standalone_from length].
      rewrite Hst, IHn by (simpl in Hlen; lia). lia.
Qed.

(** X8.  For a keyword made of word characters, the result is longer
    than the text by four characters for each position at which the
    keyword stands as a whole word, in any case; the text comes back
    unchanged exactly when there is no such position, in particular when
    the keyword only occurs inside longer words. *)
Theorem highlight_adds_four_per_word (text k : str) :
  k <> [] -> forallb is_word k = true ->
  exists out,
    highlight_keywords text [k] = Ok out
    /\ length out = length text + 4 * count_standalone k text
    /\ (out = text <-> count_standalone k text = 0).
Proof.
  intros Hne Hw.
  pose proof (word_ends_of_word Hne Hw) as He.
  pose proof (word_no_backslash _ Hw) as Hp.
  exists (scan_for k None text). split; [now apply highlight_one|].
  assert (Hlen : length (scan_for k None text)
                 = length text + 4 * count_standalone k text).
  { now apply (@scan_length k He Hp Hw (length text)). }
  split; [exact Hlen|]. split.
  - intros E. rewrite E in Hlen. lia.
  - intros H0. now apply out_unchanged.
Qed.

Lemma highlight_adds_four_per_word_witness :
  lit "trade" <> []
  /\ forallb is_word (lit "trade") = true
  /\ exists out,
       highlight_keywords (lit "Trade talks; traders trade.") [lit "trade"]
       = Ok out
       /\ length out = length (lit "Trade talks; traders trade.") + 4 * 2
       /\ (out = lit "Trade talks; traders trade."
           <-> count_standalone (lit "trade")
                 (lit "Trade talks; traders trade.") = 0).
Proof.
  split; [discriminate|]. split; [reflexivity|].
  apply (@highlight_adds_four_per_word (lit "Trade talks; traders trade.")
           (lit "trade")); [discriminate | reflexivity].
Defined.

(** *** The empty keyword *)

Lemma empty_match (prev : option ascii) (s : str) :
  match_here (word_pattern []) prev s
  = if at_boundary prev s then Some 0 else None.
Proof. simpl. now destruct (at_boundary prev s). Qed.

Lemma empty_scan_nil (prev : option ascii) :
  scan_for [] prev [] = if word_side prev then lit "****" else [].
Proof.
  unfold scan_for. cbn [sub_loop]. rewrite empty_match.
  unfold at_boundary. simpl hd_error. cbn [word_side].
  rewrite xorb_false_r. now destruct (word_side prev).
Qed.

Lemma empty_scan_cons (prev : option ascii) (c : ascii) (s : str) :
  scan_for [] prev (c :: s)
  = (if xorb (word_side prev) (is_word c) then lit "****" else [])
    ++ c :: scan_for [] (Some c) s.
Proof.
  unfold scan_for. cbn [sub_loop]. rewrite empty_match.
  unfold at_boundary. simpl hd_error. cbn [word_side].
  now destruct (xorb (word_side prev) (is_word c)).
Qed.

Lemma empty_scan_inside (w rest : str) (prev : option ascii) :
  word_side prev = true -> forallb is_word w = true ->
  scan_for [] prev (w ++ rest) = w ++ scan_for [] (seen prev w) rest.
Proof.
  revert prev. induction w as [|c w IH]; intros prev Hprev H; [reflexivity|].
  simpl in H. apply andb_true_iff in H as [Hc H].
  change ((c :: w) ++ rest) with (c :: w ++ rest).
  rewrite empty_scan_cons, Hprev, Hc. simpl. f_equal. now apply IH.
Qed.

Lemma empty_scan_outside (pre rest : str) (prev : option ascii) :
  word_side prev = false -> no_word pre = true ->
  scan_for [] prev (pre ++ rest) = pre ++ scan_for [] (seen prev pre) rest.
Proof.
  revert prev. induction pre as [|c pre IH]; intros prev Hprev H; [reflexivity|].
  simpl in H. apply andb_true_iff in H as [Hc H]. apply negb_true_iff in Hc.
  change ((c :: pre) ++ rest) with (c :: pre ++ rest).
  rewrite empty_scan_cons, Hprev, Hc. simpl. f_equal. now apply IH.
Qed.

Lemma empty_scan_rest (post : str) (prev : option ascii) :
  word_side prev = false -> no_word post = true ->
  scan_for [] prev post = post.
Proof.
  intros Hprev H. rewrite <- (app_nil_r post) at 1.
  rewrite empty_scan_outside, empty_scan_nil, seen_no_word by assumption.
  apply app_nil_r.
Qed.

Lemma empty_scan_tail (post : str) (prev : option ascii) :
  word_side prev = true -> no_word post = true ->
  scan_for [] prev post = lit "****" ++ post.
Proof.
  intros Hprev H. destruct post as [|c post].
  - now rewrite empty_scan_nil, Hprev.
  - simpl in H. apply andb_true_iff in H as [Hc H].
    pose proof Hc as Hc'. apply negb_true_iff in Hc'.
    rewrite empty_scan_cons, Hprev, Hc'. cbn [xorb].
    now rewrite empty_scan_rest by (simpl; assumption).
Qed.

(** X9.  The empty keyword, which an empty tag is, puts four stars on
    each side of a word: a text made of a stretch without word characters,
    a word, and another stretch without word characters comes back with
    "****" before and after the word; a text without word characters comes
    back unchanged. *)
Theorem empty_keyword_marks_word_edges (pre w post : str) :
  no_word pre = true -> forallb is_word w = true -> no_word post = true ->
  highlight_keywords (pre ++ w ++ post) [[]]
  = Ok (pre
        ++ match w with
           | [] => []
           | _ :: _ => lit "****" ++ w ++ lit "****"
           end
        ++ post).
Proof.
  intros Hpre Hw Hpost.
  rewrite highlight_one by reflexivity. f_equal.
  rewrite empty_scan_outside by auto.
  pose proof (@seen_no_word None pre eq_refl Hpre) as Hseen.
  f_equal. destruct w as [|c w].
  - simpl. now apply empty_scan_rest.
  - simpl in Hw. apply andb_true_iff in Hw as [Hc Hw].
    change ((c :: w) ++ post) with (c :: w ++ post).
    rewrite empty_scan_cons, Hseen, Hc. cbn [xorb].
    rewrite empty_scan_inside by (simpl; assumption).
    rewrite empty_scan_tail by (try apply seen_word; simpl; assumption).
    simpl. now rewrite <- !app_assoc.
Qed.

Lemma empty_keyword_marks_word_edges_witness :
  no_word (lit "(") = true
  /\ forallb is_word (lit "growth") = true
  /\ no_word (lit ") ") = true
  /\ highlight_keywords (lit "(" ++ lit "growth" ++ lit ") ") [[]]
     = Ok (lit "(****growth****) ").
Proof.
  repeat (split; [reflexivity|]).
  apply (@empty_keyword_marks_word_edges (lit "(") (lit "growth") (lit ") "));
    reflexivity.
Defined.

End HighlightLaws.

(** ** What the store file is made of *)

Module DumpFacts.

Import Notions.

Lemma encode_char_plain (c : ascii) : forallb plain (encode_char c) = true.
Proof. destruct c as [[] [] [] [] [] [] [] []]; reflexivity. Qed.

Lemma forallb_flat_map {A B} (P : B -> bool) (f : A -> list B) (l : list A) :
  (forall x, forallb P (f x) = true) -> forallb P (flat_map f l) = true.
Proof.
  intros H. induction l as [|x l IH]; [reflexivity|].
  simpl. now rewrite forallb_app, H, IH.
Qed.

Lemma string_plain (s : str) : forallb plain (encode_basestring_ascii s) = true.
Proof.
  unfold encode_basestring_ascii. simpl.
  rewrite forallb_app, forallb_flat_map by apply encode_char_plain.
  reflexivity.
Qed.

Lemma newline_indent_plain (level : nat) :
  forallb plain (newline_indent level) = true.
Proof.
  unfold newline_indent. simpl. generalize (level + (level + 0)).
  induction n as [|n IH]; [reflexivity | exact IH].
Qed.

Lemma item_separator_plain (level : nat) :
  forallb plain (item_separator level) = true.
Proof. unfold item_separator. cbn [forallb]. apply newline_indent_plain. Qed.

Lemma join_plain (sep : str) (pieces : list str) :
  forallb plain sep = true ->
  Forall (fun p => forallb plain p = true) pieces ->
  forallb plain (join sep pieces) = true.
Proof.
  intros Hsep H. induction H as [|p rest Hp Hrest IH]; [reflexivity|].
  destruct rest as [|q rest]; [exact Hp|].
  change (join sep (p :: q :: rest)) with (p ++ sep ++ join sep (q :: rest)).
  now rewrite !forallb_app, Hp, Hsep, IH.
Qed.

Lemma bracketed_plain (open close : ascii) (level : nat) (body : str) :
  plain open = true -> plain close = true -> forallb plain body = true ->
  forallb plain (open :: newline_indent (S level) ++ body
                   ++ newline_indent level ++ [close]) = true.
Proof.
  intros Ho Hc Hb. cbn [forallb]. rewrite !forallb_app, Ho, Hb.
  rewrite !newline_indent_plain. cbn [forallb]. now rewrite Hc.
Qed.

Lemma dumps_plain (v : json) : forallb plain (dumps v) = true.
Proof.
  unfold dumps. generalize 0.
  induction v as [s|items IH|members IH] using json_induction; intros level.
  - apply string_plain.
  - destruct items as [|x items]; [reflexivity|].
    rewrite JsonFacts.encode_array.
    apply bracketed_plain; [reflexivity | reflexivity |].
    apply join_plain; [apply item_separator_plain|].
    apply Forall_map. eapply Forall_impl; [|exact IH]. intros a Ha. apply Ha.
  - destruct members as [|m members]; [reflexivity|].
    rewrite JsonFacts.encode_object.
    apply bracketed_plain; [reflexivity | reflexivity |].
    apply join_plain; [apply item_separator_plain|].
    apply Forall_map. eapply Forall_impl; [|exact IH].
    intros [k x] Hx. simpl in Hx. unfold encode_member.
    rewrite !forallb_app, string_plain, Hx. reflexivity.
Qed.

(** X10.  The file [save_insight] writes is made of printable ASCII
    characters and newlines only, whatever characters the entry and the
    entries before it hold: when [save_insight] succeeds there is a file,
    and every character of it has a code from 32 to 126 or is a
    newline. *)
Theorem store_file_is_plain_ascii (entry : json) (f f' : Store.file) :
  Store.save_insight entry f = Ok f' ->
  exists content, f' = Some content /\ forallb plain content = true.
Proof.
  unfold Store.save_insight.
  destruct (Store.load_insights f) as [[s|insights|members]|e];
    try discriminate.
  intros [= <-]. eexists. split; [reflexivity | apply dumps_plain].
Qed.

Lemma store_file_is_plain_ascii_witness :
  let entry := JStr (lit "caf" ++ [ascii_of_nat 233; nl]) in
  let written := lit "[" ++ [nl] ++ lit "  " ++ [dquote] ++ lit "caf\u00e9\n"
                 ++ [dquote; nl] ++ lit "]" in
  Store.save_insight entry None = Ok (Some written)
  /\ exists content, Some written = Some content
                     /\ forallb plain content = true.
Proof.
  intros entry written. split; [reflexivity|].
  apply (@store_file_is_plain_ascii entry None (Some written)).
  reflexivity.
Defined.

End DumpFacts.

(** ** The prompts, further *)

Module PromptLaws.

Import Prompt.

Lemma one_placeholder_inj (head tail a b : str) :
  [nl] ++ head ++ a ++ tail = [nl] ++ head ++ b ++ tail -> a = b.
Proof.
  intros H. apply app_inv_head in H. apply app_inv_head in H.
  now apply app_inv_tail in H.
Qed.

(** X11.  A prompt tells its input: two texts that give the same
    sentiment, tag, research or explanation prompt are the same text, and
    so it is for the article of the narrative prompt under one research
    context, and for the research context under one article.  But the
    narrative prompt does not tell the article from the research context:
    an article that ends with the heading of the research context gives
    the prompt of a shorter article with a longer context. *)
Theorem prompts_tell_inputs_apart (a b : str) :
  (generate_sentiment_prompt a = generate_sentiment_prompt b -> a = b)
  /\ (generate_tag_prompt a = generate_tag_prompt b -> a = b)
  /\ (generate_research_prompt a = generate_research_prompt b -> a = b)
  /\ (generate_explanation_prompt a = generate_explanation_prompt b -> a = b)
  /\ (forall research,
        generate_prompt a research = generate_prompt b research -> a = b)
  /\ (forall article,
        generate_prompt article a = generate_prompt article b -> a = b)
  /\ generate_prompt (lit "X")
       (lit "Y" ++ [nl; nl] ++ lit "Relevant research context:" ++ [nl]
        ++ lit "Z")
     = generate_prompt
         (lit "X" ++ [nl; nl] ++ lit "Relevant research context:" ++ [nl]
          ++ lit "Y")
         (lit "Z").
Proof.
  repeat split.
  - apply one_placeholder_inj.
  - apply one_placeholder_inj.
  - apply one_placeholder_inj.
  - apply one_placeholder_inj.
  - intros research H. unfold generate_prompt in H.
    apply app_inv_head in H. apply app_inv_head in H.
    now apply app_inv_tail in H.
  - intros article H. unfold generate_prompt in H.
    do 5 apply app_inv_head in H. now apply app_inv_tail in H.
Qed.

End PromptLaws.

(** ** Runs, further *)

Module RunFacts.

Import App Prompt Notions PyFacts AppFacts JsonFacts StoreFacts StripFacts.

Lemma calls_of_called (c : call) (w : world) :
  calls_of (log (add (Called c) w)) = calls_of (log w) ++ [c].
Proof. simpl. now rewrite calls_of_app. Qed.

Lemma narrative_lines (insight : str) :
  full_insight_of (insight_lines_of insight) = insight.
Proof. apply split_join. Qed.

Lemma unusable_save (e : json) (f : Store.file) :
  unusable f ->
  Store.save_insight e f = Raise JSONDecodeError
  \/ Store.save_insight e f = Raise AttributeError.
Proof.
  intros (content & -> & [H|[[s H]|[d H]]]);
    unfold Store.save_insight, Store.load_insights.
  - left. unfold loads. rewrite H. reflexivity.
  - right. now rewrite H.
  - right. now rewrite H.
Qed.

Section Run.

Variable endpoint : list call -> call -> option str.
Variable now : str.

(** X12.  What [query_openrouter] hands back.  It logs its call and leaves
    the store alone.  When it returns, the endpoint answered, and the
    string returned is the answer stripped: it has no white space at
    either end, stripping it again changes nothing, and it is empty
    exactly when the answer was blank.  When it raises, the endpoint
    failed. *)
Theorem query_openrouter_returns_trimmed (prompt role_description : str)
    (w : world) :
  let c := {| role := role_description; prompt := prompt |} in
  let r := query_openrouter endpoint prompt role_description w in
  snd r = add (Called c) w
  /\ (forall s, fst r = Ok s ->
        edge_space s = false /\ strip s = s
        /\ exists content,
             endpoint (calls_of (log w)) c = Some content
             /\ s = strip content
             /\ (s = [] <-> blank content = true))
  /\ (forall e, fst r = Raise e ->
        e = RemoteCallError /\ endpoint (calls_of (log w)) c = None).
Proof.
  intros c r. subst r. unfold query_openrouter. fold c.
  destruct (endpoint (calls_of (log w)) c) as [content|];
    (split; [reflexivity|]); split; try discriminate.
  - intros s [= <-]. split; [apply strip_edges|].
    split; [apply strip_strip|]. exists content.
    split; [reflexivity|]. split; [reflexivity|].
    split; intros H; now apply strip_blank.
  - intros e [= <-]. auto.
Qed.

Lemma run_query {A} (p r x : str) (k : str -> M A) (w : world) :
  endpoint (calls_of (log w)) {| role := r; prompt := p |} = Some x ->
  bind (query_openrouter endpoint p r) k w
  = k (strip x) (add (Called {| role := r; prompt := p |}) w).
Proof. intros H. now rewrite bind_query, H. Qed.

Lemma run_query_none {A} (p r : str) (k : str -> M A) (w : world) :
  endpoint (calls_of (log w)) {| role := r; prompt := p |} = None ->
  bind (query_openrouter endpoint p r) k w
  = (Raise RemoteCallError, add (Called {| role := r; prompt := p |}) w).
Proof. intros H. now rewrite bind_query, H. Qed.

Ltac history H :=
  rewrite ?calls_of_called, <- ?app_assoc; rewrite <- ?app_assoc in H;
  exact H.

Ltac answered H := erewrite run_query; [|history H].

Ltac refused H := erewrite run_query_none; [|history H].

Ltac same_world :=
  unfold bind, draw, record, lift, ret, add; simpl;
  rewrite <- ?app_assoc; simpl; reflexivity.

(** *** The generation block, path by path *)

(** X13.  A generation block whose four calls are answered, whose
    keywords are accepted and whose store loads as a list: the calls are
    research, tags, narrative and explanation in this order, the narrative
    prompt carrying the stripped research answer and the explanation prompt
    the stripped narrative; the page shows the first line of the narrative,
    the narrative highlighted with the tags followed by the fixed keywords,
    the explanation, the research, and a download button holding the
    narrative without highlighting; and the store file becomes the dump of
    the list before followed by one entry made of the time, the article as
    typed, the stripped narrative, the stripped research, the first line,
    the tags and the sentiment handed in. *)
Theorem generation_succeeds
    (article_text sentiment research tags_response insight explanation
       highlighted : str)
    (prior : list json) (w : world) :
  served endpoint (calls_of (log w))
    (block_calls article_text research insight)
    [research; tags_response; insight; explanation] ->
  highlight_keywords (strip insight)
    (tags_of (strip tags_response) ++ fixed_keywords) = Ok highlighted ->
  Store.load_insights (store w) = Ok (JArr prior) ->
  let why_matters := why_matters_of (insight_lines_of (strip insight)) in
  let saved := entry now article_text (strip insight) (strip research)
                 why_matters (tags_of (strip tags_response)) sentiment in
  generate_insight endpoint now article_text sentiment w
  = (Ok tt,
     {| store := Some (dumps (JArr (prior ++ [saved])));
        log := log w
               ++ map Called (block_calls article_text research insight)
               ++ results_page why_matters highlighted (strip explanation)
                    (strip research) (strip insight)
               ++ [SaveInsight saved] |}).
Proof.
  intros (Hr & Ht & Hi & Hx & _) Hh Hload why_matters saved.
  unfold generate_insight, try_except.
  answered Hr. answered Ht. answered Hi. cbv zeta.
  rewrite narrative_lines. answered Hx.
  rewrite !bind_draw, bind_lift, Hh, !bind_draw, save_insight_run.
  cbn [store add]. unfold Store.save_insight. rewrite Hload.
  same_world.
Qed.

(** X14.  The generation block stops at the first call that fails,
    whichever it is.  When the first [n] of its four calls are answered
    and the next one fails, the block logs these calls and the failed one,
    draws the error and its trace and nothing else, saves nothing, leaves
    the store file as it was, and ends without an exception. *)
Theorem generation_stops_at_failed_call
    (article_text sentiment research tags_response insight : str)
    (n : nat) (w : world) :
  n < 4 ->
  served endpoint (calls_of (log w))
    (firstn n (block_calls article_text research insight))
    (firstn n [research; tags_response; insight]) ->
  endpoint
    (calls_of (log w) ++ firstn n (block_calls article_text research insight))
    (nth n (block_calls article_text research insight)
       (research_call article_text)) = None ->
  generate_insight endpoint now article_text sentiment w
  = (Ok tt,
     {| store := store w;
        log := log w
               ++ map Called
                    (firstn (S n) (block_calls article_text research insight))
               ++ [ Drew (ErrorBox RemoteCallError);
                    Drew (CodeBox RemoteCallError) ] |}).
Proof.
  intros Hn Hs Hnone. unfold generate_insight, try_except.
  destruct n as [|[|[|[|n]]]]; [| | | |lia]; simpl in Hs, Hnone.
  - rewrite app_nil_r in Hnone. refused Hnone. same_world.
  - destruct Hs as (Hr & _). answered Hr. refused Hnone. same_world.
  - destruct Hs as (Hr & Ht & _). answered Hr. answered Ht.
    refused Hnone. same_world.
  - destruct Hs as (Hr & Ht & Hi & _). answered Hr. answered Ht. answered Hi.
    cbv zeta. rewrite narrative_lines.
    refused Hnone. same_world.
Qed.

(** X15.  A tag that [re] refuses as a replacement template stops the
    block in the middle of the page.  When the four calls are answered and
    one of the tags, wrapped in stars, is a refused template, the block has
    drawn the headline and the heading of the narrative when
    [highlight_keywords] raises; it then draws the error and its trace,
    shows neither narrative nor explanation nor research, saves nothing
    and leaves the store file as it was. *)
Theorem generation_stops_at_refused_keyword
    (article_text sentiment research tags_response insight explanation k : str)
    (w : world) :
  served endpoint (calls_of (log w))
    (block_calls article_text research insight)
    [research; tags_response; insight; explanation] ->
  In k (tags_of (strip tags_response)) ->
  Re.parse_template (wrapped k) = None ->
  generate_insight endpoint now article_text sentiment w
  = (Ok tt,
     {| store := store w;
        log := log w
               ++ map Called (block_calls article_text research insight)
               ++ [ Drew (Subheader (lit "Why This Matters"));
                    Drew (Text (why_matters_of
                                  (insight_lines_of (strip insight))));
                    Drew (Subheader (lit "Full Insight"));
                    Drew (ErrorBox TemplateError);
                    Drew (CodeBox TemplateError) ] |}).
Proof.
  intros (Hr & Ht & Hi & Hx & _) Hin Hk.
  unfold generate_insight, try_except.
  answered Hr. answered Ht. answered Hi. cbv zeta.
  rewrite narrative_lines. answered Hx.
  rewrite !bind_draw, bind_lift.
  rewrite (@HighlightLaws.highlight_refused k)
    by (try apply in_or_app; auto).
  same_world.
Qed.

(** X16.  With a store file that cannot be appended to (empty or blank,
    or holding a JSON string or object), a block whose calls are answered
    and whose keywords are accepted shows the whole page, enters
    [save_insight], and then draws the error raised there and its trace;
    the store file is left as it was. *)
Theorem generation_with_unusable_store
    (article_text sentiment research tags_response insight explanation
       highlighted : str)
    (w : world) :
  served endpoint (calls_of (log w))
    (block_calls article_text research insight)
    [research; tags_response; insight; explanation] ->
  highlight_keywords (strip insight)
    (tags_of (strip tags_response) ++ fixed_keywords) = Ok highlighted ->
  unusable (store w) ->
  let why_matters := why_matters_of (insight_lines_of (strip insight)) in
  let saved := entry now article_text (strip insight) (strip research)
                 why_matters (tags_of (strip tags_response)) sentiment in
  exists e,
    (e = JSONDecodeError \/ e = AttributeError)
    /\ generate_insight endpoint now article_text sentiment w
       = (Ok tt,
          {| store := store w;
             log := log w
                    ++ map Called (block_calls article_text research insight)
                    ++ results_page why_matters highlighted (strip explanation)
                         (strip research) (strip insight)
                    ++ [ SaveInsight saved;
                         Drew (ErrorBox e); Drew (CodeBox e) ] |}).
Proof.
  intros (Hr & Ht & Hi & Hx & _) Hh Hbad why_matters saved.
  assert (He : exists e, (e = JSONDecodeError \/ e = AttributeError)
                         /\ Store.save_insight saved (store w) = Raise e).
  { destruct (unusable_save saved Hbad) as [H|H]; eauto. }
  destruct He as (e & Hor & He). exists e. split; [exact Hor|].
  unfold generate_insight, try_except.
  answered Hr. answered Ht. answered Hi. cbv zeta.
  rewrite narrative_lines. answered Hx.
  rewrite !bind_draw, bind_lift, Hh, !bind_draw, save_insight_run.
  cbn [store add]. fold why_matters. fold saved. rewrite He.
  same_world.
Qed.

(** *** What any run does to the log and to the store *)

Ltac ask :=
  rewrite bind_query; cbv beta zeta;
  match goal with
  | |- context [match endpoint ?h ?c with _ => _ end] =>
      destruct (endpoint h c) as [?content|] eqn:?E
  end.

Ltac flat :=
  unfold bind, draw, record, lift, ret, add; simpl;
  rewrite <- ?app_assoc; simpl.

Ltac stopped :=
  flat; eexists; split; [reflexivity|];
  split; [simpl; lia|]; left; split; reflexivity.

Lemma block_effect (article_text sentiment : str) (w : world) :
  exists new,
    log (snd (generate_insight endpoint now article_text sentiment w))
    = log w ++ new
    /\ 1 <= length (calls_of new) <= 4
    /\ ((saves_of new = []
         /\ store (snd (generate_insight endpoint now article_text sentiment w))
            = store w)
        \/ exists e,
             saves_of new = [e]
             /\ distinct_keys e = true
             /\ store (snd (generate_insight endpoint now article_text
                              sentiment w))
                = match Store.save_insight e (store w) with
                  | Ok f => f
                  | Raise _ => store w
                  end).
Proof.
  unfold generate_insight, try_except.
  ask; [|stopped].
  ask; [|stopped].
  ask; [|stopped].
  ask; [|stopped].
  rewrite !bind_draw, bind_lift.
  destruct (highlight_keywords _ _) as [highlighted|e]; [|stopped].
  rewrite !bind_draw, save_insight_run. cbn [store add].
  destruct (Store.save_insight _ _) as [f|e] eqn:Es.
  - flat. eexists. split; [reflexivity|]. split; [simpl; lia|]. right.
    eexists. split; [reflexivity|]. split; [apply entry_distinct_keys|].
    now rewrite Es.
  - flat. eexists. split; [reflexivity|]. split; [simpl; lia|]. right.
    eexists. split; [reflexivity|]. split; [apply entry_distinct_keys|].
    now rewrite Es.
Qed.

(** A run with nothing in the text area. *)
Lemma script_empty (button : bool) (w : world) :
  script endpoint now [] button w
  = (Ok tt,
     {| store := store w;
        log := log w ++ [ Drew (Title (lit "Pratiti"));
                          Drew (Markdown page_intro) ] |}).
Proof.
  unfold script, sentiment_block, sidebar. simpl.
  unfold bind, draw, record, ret, add. simpl.
  now rewrite <- app_assoc.
Qed.

(** What any run does: its log grows, its calls are counted, and the store
    changes only through [save_insight]. *)
Lemma script_effect (article_text : str) (button : bool) (w : world) :
  fst (script endpoint now article_text button w) = Ok tt
  /\ exists new,
       log (snd (script endpoint now article_text button w)) = log w ++ new
       /\ (if truthy article_text
           then if button
                then 2 <= length (calls_of new) <= 5
                else calls_of new = [sentiment_call article_text]
           else calls_of new = [])
       /\ ((saves_of new = []
            /\ store (snd (script endpoint now article_text button w)) = store w)
           \/ exists e,
                pressed (article_text, button) = true
                /\ saves_of new = [e]
                /\ distinct_keys e = true
                /\ store (snd (script endpoint now article_text button w))
                   = match Store.save_insight e (store w) with
                     | Ok f => f
                     | Raise _ => store w
                     end).
Proof.
  destruct article_text as [|c a].
  { rewrite script_empty. simpl. split; [reflexivity|].
    eexists. split; [reflexivity|]. split; [reflexivity|]. now left. }
  assert (Hne : c :: a <> []) by discriminate.
  split; [now apply script_ok|].
  rewrite script_run by exact Hne.
  destruct (preamble_log endpoint (c :: a) w) as (Hst & drawn & Hlog & Hc & Hs).
  change (truthy (c :: a)) with true. cbv iota.
  destruct button.
  - destruct (block_effect (c :: a) (eager_sentiment endpoint (c :: a) w)
                (preamble endpoint (c :: a) w))
      as (new & Hnew & Hcalls & Hsaves).
    rewrite Hnew, Hlog, <- app_assoc. eexists. split; [reflexivity|].
    cbn [app calls_of saves_of]. rewrite calls_of_app, saves_of_app, Hc, Hs.
    cbn [app length]. split; [lia|].
    rewrite Hst in Hsaves.
    destruct Hsaves as [[H1 H2]|(e & H1 & H2 & H3)]; [left|right]; auto.
    exists e. auto.
  - simpl. rewrite Hlog. eexists. split; [reflexivity|].
    simpl. rewrite Hc, Hs. split; [reflexivity|]. left. auto.
Qed.

(** X17.  No run ends in an exception, whatever the text, the button and
    the endpoint, and a run spends a bounded number of calls: none with an
    empty text area, exactly the sentiment call with a text and no press,
    and from two to five calls with a text and a press.  A run enters
    [save_insight] at most once, and only after a press on a text. *)
Theorem run_ends_within_budget (article_text : str) (button : bool) (w : world) :
  fst (script endpoint now article_text button w) = Ok tt
  /\ exists new,
       log (snd (script endpoint now article_text button w)) = log w ++ new
       /\ (if truthy article_text
           then if button
                then 2 <= length (calls_of new) <= 5
                else calls_of new = [sentiment_call article_text]
           else calls_of new = [])
       /\ length (saves_of new)
          <= (if pressed (article_text, button) then 1 else 0).
Proof.
  destruct (script_effect article_text button w)
    as (Hok & new & Hlog & Hcalls & Hsaves).
  split; [exact Hok|]. exists new. split; [exact Hlog|]. split; [exact Hcalls|].
  destruct Hsaves as [[-> _]|(e & -> & -> & _)]; simpl; lia.
Qed.

(** X18.  When the endpoint answers the sentiment call with a blank text,
    the sentiment is the empty string: the sidebar is not drawn, and the
    generation block, if the button was pressed, runs with the empty
    string as its sentiment. *)
Theorem blank_sentiment_hides_sidebar
    (article_text content : str) (button : bool) (w : world) :
  article_text <> [] ->
  endpoint (calls_of (log w)) (sentiment_call article_text) = Some content ->
  blank content = true ->
  script endpoint now article_text button w
  = (if button
     then generate_insight endpoint now article_text []
     else ret tt)
      {| store := store w;
         log := log w ++ [ Drew (Title (lit "Pratiti"));
                           Drew (Markdown page_intro);
                           Called (sentiment_call article_text) ] |}.
Proof.
  intros Hne Hc Hb. rewrite script_run by exact Hne.
  unfold preamble, eager_sentiment. rewrite Hc.
  apply strip_blank in Hb. rewrite Hb.
  unfold sidebar, ret, add. simpl. now rewrite <- !app_assoc.
Qed.

(** *** Sessions *)

Lemma script_store (article_text : str) (button : bool) (w : world)
    (prior : list json) :
  Store.load_insights (store w) = Ok (JArr prior) ->
  exists added,
    saves_of (log (snd (script endpoint now article_text button w)))
    = saves_of (log w) ++ added
    /\ Store.load_insights (store (snd (script endpoint now article_text button w)))
       = Ok (JArr (prior ++ added))
    /\ length added <= (if pressed (article_text, button) then 1 else 0).
Proof.
  intros Hload.
  destruct (script_effect article_text button w)
    as (_ & new & Hlog & _ & Hsaves).
  rewrite Hlog, saves_of_app.
  destruct Hsaves as [[-> ->]|(e & -> & -> & He & ->)].
  - exists []. rewrite !app_nil_r. split; [reflexivity|]. split; [exact Hload|].
    simpl. lia.
  - exists [e]. destruct (save_then_load _ e Hload He) as [-> Hback].
    split; [reflexivity|]. split; [exact Hback|]. simpl. lia.
Qed.


(** X20.  A store file that cannot be appended to is never written: after
    any session, with any endpoint, the file is what it was. *)
Theorem session_leaves_unusable_store
    (interactions : list (str * bool)) (w : world) :
  unusable (store w) ->
  store (session endpoint now interactions w) = store w.
Proof.
  revert w. induction interactions as [|[a b] later IH]; intros w Hbad;
    [reflexivity|].
  cbn [session].
  assert (Hsame : store (snd (script endpoint now a b w)) = store w).
  { destruct (script_effect a b w) as (_ & new & _ & _ & Hs).
    destruct Hs as [[_ H]|(e & _ & _ & _ & H)]; [exact H|].
    rewrite H. now destruct (unusable_save e Hbad) as [-> | ->]. }
  rewrite IH; [exact Hsame | now rewrite Hsame].
Qed.

End Run.

(** *** The same on sample inputs *)

Lemma served_block_answers :
  served (scripted block_answers) []
    (block_calls sample_article sample_research sample_insight)
    [sample_research; sample_tags; sample_insight; sample_explanation].
Proof. repeat split. Qed.

Lemma spoiled_unusable : unusable (store spoiled).
Proof.
  exists (lit "{}"). split; [reflexivity|]. right. right. now exists [].
Qed.

Lemma generation_succeeds_witness :
  let saved := entry sample_now sample_article
                 (lit "Policy shifts." ++ [nl] ++ lit "Rates follow.")
                 sample_research (lit "Policy shifts.")
                 [lit "Finance"; lit "Policy"] (lit "Neutral") in
  served (scripted block_answers) (calls_of (log fresh))
    (block_calls sample_article sample_research sample_insight)
    [sample_research; sample_tags; sample_insight; sample_explanation]
  /\ highlight_keywords (strip sample_insight)
       (tags_of (strip sample_tags) ++ fixed_keywords) = Ok sample_highlighted
  /\ Store.load_insights (store fresh) = Ok (JArr [])
  /\ generate_insight (scripted block_answers) sample_now sample_article
       (lit "Neutral") fresh
     = (Ok tt,
        {| store := Some (dumps (JArr ([] ++ [saved])));
           log := log fresh
                  ++ map Called
                       (block_calls sample_article sample_research
                          sample_insight)
                  ++ results_page (lit "Policy shifts.") sample_highlighted
                       sample_explanation sample_research
                       (lit "Policy shifts." ++ [nl] ++ lit "Rates follow.")
                  ++ [SaveInsight saved] |}).
Proof.
  intros saved.
  split; [exact served_block_answers|]. split; [reflexivity|].
  split; [reflexivity|].
  exact (@generation_succeeds (scripted block_answers) sample_now
           sample_article (lit "Neutral") sample_research sample_tags
           sample_insight sample_explanation sample_highlighted [] fresh
           served_block_answers eq_refl eq_refl).
Defined.

Lemma generation_stops_at_failed_call_witness :
  let endpoint := scripted [Some sample_research; Some sample_tags; None] in
  2 < 4
  /\ served endpoint (calls_of (log fresh))
       (firstn 2 (block_calls sample_article sample_research sample_insight))
       (firstn 2 [sample_research; sample_tags; sample_insight])
  /\ endpoint
       (calls_of (log fresh)
        ++ firstn 2 (block_calls sample_article sample_research sample_insight))
       (nth 2 (block_calls sample_article sample_research sample_insight)
          (research_call sample_article)) = None
  /\ generate_insight endpoint sample_now sample_article (lit "Neutral") fresh
     = (Ok tt,
        {| store := None;
           log := [ Called (research_call sample_article);
                    Called (tag_call sample_article);
                    Called (insight_call sample_article sample_research);
                    Drew (ErrorBox RemoteCallError);
                    Drew (CodeBox RemoteCallError) ] |}).
Proof.
  intros endpoint.
  assert (Hn : 2 < 4) by lia.
  assert (Hs : served endpoint (calls_of (log fresh))
                 (firstn 2 (block_calls sample_article sample_research
                              sample_insight))
                 (firstn 2 [sample_research; sample_tags; sample_insight]))
    by (repeat split).
  split; [exact Hn|]. split; [exact Hs|]. split; [reflexivity|].
  exact (@generation_stops_at_failed_call endpoint sample_now sample_article
           (lit "Neutral") sample_research sample_tags sample_insight 2 fresh
           Hn Hs eq_refl).
Defined.

Lemma generation_stops_at_refused_keyword_witness :
  let answers := [ Some sample_research; Some (lit "Finance, R\D");
                   Some sample_insight; Some sample_explanation ] in
  served (scripted answers) (calls_of (log fresh))
    (block_calls sample_article sample_research sample_insight)
    [sample_research; lit "Finance, R\D"; sample_insight; sample_explanation]
  /\ In (lit "R\D") (tags_of (strip (lit "Finance, R\D")))
  /\ Re.parse_template (wrapped (lit "R\D")) = None
  /\ generate_insight (scripted answers) sample_now sample_article
       (lit "Neutral") fresh
     = (Ok tt,
        {| store := None;
           log := map Called
                    (block_calls sample_article sample_research sample_insight)
                  ++ [ Drew (Subheader (lit "Why This Matters"));
                       Drew (Text (lit "Policy shifts."));
                       Drew (Subheader (lit "Full Insight"));
                       Drew (ErrorBox TemplateError);
                       Drew (CodeBox TemplateError) ] |}).
Proof.
  intros answers.
  assert (Hs : served (scripted answers) (calls_of (log fresh))
                 (block_calls sample_article sample_research sample_insight)
                 [sample_research; lit "Finance, R\D"; sample_insight;
                  sample_explanation])
    by (repeat split).
  assert (Hin : In (lit "R\D") (tags_of (strip (lit "Finance, R\D"))))
    by (right; left; reflexivity).
  split; [exact Hs|]. split; [exact Hin|]. split; [reflexivity|].
  exact (@generation_stops_at_refused_keyword (scripted answers) sample_now
           sample_article (lit "Neutral") sample_research (lit "Finance, R\D")
           sample_insight sample_explanation (lit "R\D") fresh
           Hs Hin eq_refl).
Defined.

Lemma generation_with_unusable_store_witness :
  served (scripted block_answers) (calls_of (log spoiled))
    (block_calls sample_article sample_research sample_insight)
    [sample_research; sample_tags; sample_insight; sample_explanation]
  /\ highlight_keywords (strip sample_insight)
       (tags_of (strip sample_tags) ++ fixed_keywords) = Ok sample_highlighted
  /\ unusable (store spoiled)
  /\ exists e,
       (e = JSONDecodeError \/ e = AttributeError)
       /\ store (snd (generate_insight (scripted block_answers) sample_now
                        sample_article (lit "Neutral") spoiled))
          = Some (lit "{}")
       /\ In (Drew (ErrorBox e))
             (log (snd (generate_insight (scripted block_answers) sample_now
                          sample_article (lit "Neutral") spoiled))).
Proof.
  split; [exact served_block_answers|]. split; [reflexivity|].
  split; [exact spoiled_unusable|].
  destruct (@generation_with_unusable_store (scripted block_answers)
              sample_now sample_article (lit "Neutral") sample_research
              sample_tags sample_insight sample_explanation sample_highlighted
              spoiled served_block_answers eq_refl spoiled_unusable)
    as (e & He & Hrun).
  exists e. split; [exact He|]. rewrite Hrun. split; [reflexivity|].
  cbn [snd log]. apply in_or_app. right. apply in_or_app. right.
  apply in_or_app. right. right. left. reflexivity.
Defined.

Lemma blank_sentiment_hides_sidebar_witness :
  let endpoint := scripted [Some (lit "  ")] in
  sample_article <> []
  /\ endpoint (calls_of (log fresh)) (sentiment_call sample_article)
     = Some (lit "  ")
  /\ blank (lit "  ") = true
  /\ script endpoint sample_now sample_article false fresh
     = (Ok tt,
        {| store := None;
           log := [ Drew (Title (lit "Pratiti"));
                    Drew (Markdown page_intro);
                    Called (sentiment_call sample_article) ] |}).
Proof.
  intros endpoint.
  assert (Hne : sample_article <> []) by discriminate.
  split; [exact Hne|]. split; [reflexivity|]. split; [reflexivity|].
  exact (@blank_sentiment_hides_sidebar endpoint sample_now sample_article
           (lit "  ") false fresh Hne eq_refl eq_refl).
Defined.


Lemma session_leaves_unusable_store_witness :
  unusable (store spoiled)
  /\ store (session (scripted (Some (lit "Neutral") :: block_answers))
              sample_now [(sample_article, true)] spoiled)
     = store spoiled.
Proof.
  split; [exact spoiled_unusable|].
  exact (@session_leaves_unusable_store
           (scripted (Some (lit "Neutral") :: block_answers)) sample_now
           [(sample_article, true)] spoiled spoiled_unusable).
Defined.

(** A session of one press on the samples leaves one entry in a fresh
    store. *)
Lemma session_sample :
  length (saves_of
            (log (session (scripted (Some (lit "Neutral") :: block_answers))
                    sample_now [(sample_article, true)] fresh))) = 1.
Proof. reflexivity. Qed.

End RunFacts.
